(** * libsimdpp test harness: results sets and their comparison

    A shallow embedding of [test/utils/test_results_set.h]: the element
    type tags, [TestResultsSet::Result] with its byte buffer, the cursor
    state of [TestResultsSet] and its inline operations.  The header only
    declares [push], [num_results], [size_for_type],
    [precision_for_result], the constructor of [TestResultsSet] and
    [test_equal]; their bodies are in a translation unit outside the header,
    and are modelled from the specification where a statement needs them
    (each such definition says so). *)

From Stdlib Require Import ZArith Lia.
From Stdlib Require Import Strings.Byte.
From stdpp Require Import base numbers list strings relations.

Open Scope Z_scope.

(** ** C++ [unsigned] arithmetic

    [unsigned] is a 32-bit integer on every target of the library; sums and
    products are taken modulo [2^32]. *)

Definition UINT_BITS : Z := 32.
Definition UINT_MOD : Z := 2 ^ UINT_BITS.

Definition uint (z : Z) : Z := z mod UINT_MOD.
Definition umul (a b : Z) : Z := uint (a * b).
Definition uinc (a : Z) : Z := uint (a + 1).

Definition is_uint (z : Z) : Prop := 0 <= z < UINT_MOD.

(** ** Bytes and raw memory *)

Abbreviation byte := Byte.byte.

#[global] Instance byte_eq_decision : EqDecision byte := Byte.byte_eq_dec.

Definition zero_byte : byte := Byte.x00.

(** [std::vector<std::uint8_t>::resize(n)]: keeps the first [n] bytes and
    value-initialises (zeroes) every byte it adds. *)
Definition vector_resize (v : list byte) (n : nat) : list byte :=
  take n v ++ replicate (n - length v) zero_byte.

(** [std::memcpy(dst + off, src, n)] where [dst] and [src] are the whole
    objects the pointers point into.  The copy is defined only when both
    ranges lie inside their objects; [None] stands for the undefined
    behaviour of an access outside them. *)
Definition memcpy (dst : list byte) (off : nat) (src : list byte) (n : nat)
  : option (list byte) :=
  if decide (off + n <= length dst ∧ n <= length src)%nat
  then Some (take off dst ++ take n src ++ drop (off + n) dst)
  else None.

(** How a call ends. *)
Inductive outcome (A : Type) : Type :=
| Returns (a : A)          (* the call returns normally *)
| Raises (what : string)   (* abort, failed assertion or exception *)
| Undefined.               (* undefined behaviour: nothing is reported *)
Arguments Returns {A} a.
Arguments Raises {A} what.
Arguments Undefined {A}.

Definition fails_loudly {A} (o : outcome A) : Prop :=
  match o with Raises _ => True | _ => False end.

(** ** Types of vector elements *)

Inductive VectorType : Set :=
| TYPE_INT8
| TYPE_UINT8
| TYPE_INT16
| TYPE_UINT16
| TYPE_UINT32
| TYPE_INT32
| TYPE_UINT64
| TYPE_INT64
| TYPE_FLOAT32
| TYPE_FLOAT64.

#[global] Instance VectorType_eq_decision : EqDecision VectorType.
Proof. solve_decision. Defined.

(** The [uint8_t] value of an enumerator. *)
Definition VectorType_value (t : VectorType) : Z :=
  match t with
  | TYPE_INT8 => 0 | TYPE_UINT8 => 1 | TYPE_INT16 => 2 | TYPE_UINT16 => 3
  | TYPE_UINT32 => 4 | TYPE_INT32 => 5 | TYPE_UINT64 => 6 | TYPE_INT64 => 7
  | TYPE_FLOAT32 => 8 | TYPE_FLOAT64 => 9
  end.

Definition is_float_type (t : VectorType) : bool :=
  match t with TYPE_FLOAT32 | TYPE_FLOAT64 => true | _ => false end.

(** ** [TestResultsSet::Result]: one result vector *)

Module Result.

Record t : Type := mk {
  type : VectorType;
  line : Z;
  seq : Z;
  prec_ulp : Z;
  fp_zero_eq : bool;
  file : string;
  length : Z;
  el_size : Z;
  data : list byte
}.

Definition num_bytes : Z := 32.

(** The constructor: eight field assignments, then
    [data.resize(el_size*length)] on the still empty vector; the product
    is a product of two [unsigned]. *)
Definition ctor (atype : VectorType) (alength ael_size : Z)
    (afile : string) (aline aseq aprec_ulp : Z) (afp_zero_eq : bool) : t :=
  {| type := atype;
     file := afile;
     line := aline;
     seq := aseq;
     prec_ulp := aprec_ulp;
     fp_zero_eq := afp_zero_eq;
     length := alength;
     el_size := ael_size;
     data := vector_resize [] (Z.to_nat (umul ael_size alength)) |}.

Definition with_data (r : t) (bytes : list byte) : t :=
  {| type := type r; line := line r; seq := seq r; prec_ulp := prec_ulp r;
     fp_zero_eq := fp_zero_eq r; file := file r; length := length r;
     el_size := el_size r; data := bytes |}.

(** [set(id, adata)] is the single statement
    [memcpy(data.data() + id*el_size, adata, el_size)]; the source has no
    test on [id].  [adata] is the object the pointer designates. *)
Definition set (r : t) (id : Z) (adata : list byte) : outcome t :=
  match memcpy (data r) (Z.to_nat (umul id (el_size r))) adata
               (Z.to_nat (el_size r)) with
  | Some bytes => Returns (with_data r bytes)
  | None => Undefined
  end.

Definition d (r : t) : list byte := data r.

(** Slot [i] of the buffer: the [el_size] bytes of element [i]. *)
Definition slot (r : t) (i : nat) : list byte :=
  take (Z.to_nat (el_size r)) (drop (i * Z.to_nat (el_size r)) (data r)).

(** The relation between the buffer and the two size fields that the
    constructor establishes when the product fits an [unsigned]. *)
Definition sized (r : t) : Prop :=
  0 <= el_size r ∧ 0 <= length r ∧ el_size r * length r < UINT_MOD ∧
  Z.of_nat (Datatypes.length (data r)) = el_size r * length r.

End Result.

(** ** [TestResultsSet]: the results of one instruction set *)

Record TestResultsSet : Type := mkTestResultsSet {
  name_ : string;
  seq_ : Z;
  curr_precision_ulp_ : Z;
  curr_fp_zero_equal_ : Z;        (* declared [unsigned] in the header *)
  curr_results_section_ : Z;
  results_ : list (list Result.t)
}.

Definition set_precision (s : TestResultsSet) (num_ulp : Z) : TestResultsSet :=
  {| name_ := name_ s; seq_ := seq_ s;
     curr_precision_ulp_ := num_ulp;
     curr_fp_zero_equal_ := curr_fp_zero_equal_ s;
     curr_results_section_ := curr_results_section_ s;
     results_ := results_ s |}.

Definition unset_precision (s : TestResultsSet) : TestResultsSet :=
  {| name_ := name_ s; seq_ := seq_ s;
     curr_precision_ulp_ := 0;
     curr_fp_zero_equal_ := curr_fp_zero_equal_ s;
     curr_results_section_ := curr_results_section_ s;
     results_ := results_ s |}.

(** [curr_fp_zero_equal_ = true] stores the [unsigned] value 1. *)
Definition set_fp_zero_equal (s : TestResultsSet) : TestResultsSet :=
  {| name_ := name_ s; seq_ := seq_ s;
     curr_precision_ulp_ := curr_precision_ulp_ s;
     curr_fp_zero_equal_ := 1;
     curr_results_section_ := curr_results_section_ s;
     results_ := results_ s |}.

Definition unset_fp_zero_equal (s : TestResultsSet) : TestResultsSet :=
  {| name_ := name_ s; seq_ := seq_ s;
     curr_precision_ulp_ := curr_precision_ulp_ s;
     curr_fp_zero_equal_ := 0;
     curr_results_section_ := curr_results_section_ s;
     results_ := results_ s |}.

Definition name (s : TestResultsSet) : string := name_ s.

Definition reset_seq (s : TestResultsSet) : TestResultsSet :=
  {| name_ := name_ s; seq_ := 1;
     curr_precision_ulp_ := curr_precision_ulp_ s;
     curr_fp_zero_equal_ := curr_fp_zero_equal_ s;
     curr_results_section_ := curr_results_section_ s;
     results_ := results_ s |}.

(** [curr_results_section_++; reset_seq();] *)
Definition sync_archs (s : TestResultsSet) : TestResultsSet :=
  reset_seq
    {| name_ := name_ s; seq_ := seq_ s;
       curr_precision_ulp_ := curr_precision_ulp_ s;
       curr_fp_zero_equal_ := curr_fp_zero_equal_ s;
       curr_results_section_ := uinc (curr_results_section_ s);
       results_ := results_ s |}.

Definition get_results (s : TestResultsSet) : list (list Result.t) := results_ s.

(** *** Members the header declares and does not define *)

(** Modelled from the spec: the body of [TestResultsSet::size_for_type] is
    not in the sources.  The data model gives every tag the byte width of
    its scalar: integers of 8, 16, 32 and 64 bits, IEEE-754 single and
    double. *)
Definition size_for_type (t : VectorType) : Z :=
  match t with
  | TYPE_INT8 | TYPE_UINT8 => 1
  | TYPE_INT16 | TYPE_UINT16 => 2
  | TYPE_UINT32 | TYPE_INT32 => 4
  | TYPE_UINT64 | TYPE_INT64 => 8
  | TYPE_FLOAT32 => 4
  | TYPE_FLOAT64 => 8
  end.

(** Modelled from the spec: the body of [TestResultsSet::precision_for_result]
    is not in the sources.  The tolerance of a record is its [prec_ulp];
    it is meaningless for integer types, which compare exactly. *)
Definition precision_for_result (res : Result.t) : Z :=
  if is_float_type (Result.type res) then Result.prec_ulp res else 0.

(** Modelled from the spec: the constructor [TestResultsSet(const char* name)]
    is not in the sources.  A new set has its sequence cursor at 1, exact
    comparison as current policy, and its initial section, still empty. *)
Definition TestResultsSet_ctor (aname : string) : TestResultsSet :=
  {| name_ := aname; seq_ := 1;
     curr_precision_ulp_ := 0;
     curr_fp_zero_equal_ := 0;
     curr_results_section_ := 0;
     results_ := [[]] |}.

(** A [Result&] into [results_]: section index and position. *)
Definition result_ref : Type := (nat * nat)%type.

Definition deref (s : TestResultsSet) (p : result_ref) : option Result.t :=
  results_ s !! p.1 ≫= λ sect, sect !! p.2.

(** Modelled from the spec: part of [push], whose body is not in the
    sources.  The sections up to and including index [sec] exist. *)
Definition ensure_section (res : list (list Result.t)) (sec : nat)
  : list (list Result.t) :=
  res ++ replicate (S sec - length res) [].

(** Modelled from the spec: the body of [TestResultsSet::push] is not in the
    sources.  It builds a record from the current policy snapshot and the
    next sequence number, with the element size of its type, appends it to
    the current section and increments the sequence counter; the result is
    the reference to the new record.  The current section is the one the
    cursor [curr_results_section_] designates: [sync_archs] above only
    advances that cursor, so the section is created here when [results_]
    does not hold it yet, which makes it the last one. *)
Definition push (s : TestResultsSet) (type : VectorType) (length : Z)
    (file : string) (line : Z) : TestResultsSet * result_ref :=
  let sec := Z.to_nat (curr_results_section_ s) in
  let res := ensure_section (results_ s) sec in
  let curr_part := default [] (res !! sec) in
  let r := Result.ctor type length (size_for_type type) file line (seq_ s)
             (curr_precision_ulp_ s)
             (negb (curr_fp_zero_equal_ s =? 0)) in
  ({| name_ := name_ s; seq_ := uinc (seq_ s);
      curr_precision_ulp_ := curr_precision_ulp_ s;
      curr_fp_zero_equal_ := curr_fp_zero_equal_ s;
      curr_results_section_ := curr_results_section_ s;
      results_ := <[sec := curr_part ++ [r]]> res |},
   (sec, Datatypes.length curr_part)).

(** [push(...).set(id, adata)]: the store goes through the reference, into
    the record held by [results_]. *)
Definition set_at (s : TestResultsSet) (p : result_ref) (id : Z)
    (adata : list byte) : outcome TestResultsSet :=
  match deref s p with
  | None => Undefined
  | Some r =>
      match Result.set r id adata with
      | Returns r' =>
          Returns
            {| name_ := name_ s; seq_ := seq_ s;
               curr_precision_ulp_ := curr_precision_ulp_ s;
               curr_fp_zero_equal_ := curr_fp_zero_equal_ s;
               curr_results_section_ := curr_results_section_ s;
               results_ := alter (λ sect, <[p.2 := r']> sect) p.1 (results_ s) |}
      | Raises w => Raises w
      | Undefined => Undefined
      end
  end.

(** Modelled from the spec: the body of [TestResultsSet::num_results] is not
    in the sources.  It is the number of records over all sections. *)
Definition num_results (s : TestResultsSet) : nat :=
  sum_list (Datatypes.length <$> results_ s).

(** ** IEEE-754 values as bit patterns

    The routines of [test_equal] that compare floating-point elements are
    not in the sources.  The definitions of this part serve their model:
    fields and classes of a bit pattern as IEEE-754 lays them out, and the
    distance in ULPs as integer arithmetic on the patterns. *)

Record fp_format : Type := { exp_bits : Z; frac_bits : Z }.

Definition binary32 : fp_format := {| exp_bits := 8; frac_bits := 23 |}.
Definition binary64 : fp_format := {| exp_bits := 11; frac_bits := 52 |}.

Definition fp_width (f : fp_format) : Z := 1 + exp_bits f + frac_bits f.

(** The sign bit, the most significant one. *)
Definition fp_sign (f : fp_format) (x : Z) : bool :=
  Z.testbit x (fp_width f - 1).

(** Modelled from the spec: the pattern with its sign bit cleared, used by
    the floating-point rule of the absent [test_equal]. *)
Definition fp_magnitude (f : fp_format) (x : Z) : Z :=
  Z.land x (Z.ones (fp_width f - 1)).

(** The biased exponent field. *)
Definition fp_exponent (f : fp_format) (x : Z) : Z :=
  Z.land (Z.shiftr x (frac_bits f)) (Z.ones (exp_bits f)).

(** The fraction field. *)
Definition fp_fraction (f : fp_format) (x : Z) : Z :=
  Z.land x (Z.ones (frac_bits f)).

(** Modelled from the spec: the values the NaN-free condition of the absent
    [test_equal] excludes, an all-ones exponent with a fraction that is not
    zero. *)
Definition fp_is_nan (f : fp_format) (x : Z) : bool :=
  (fp_exponent f x =? Z.ones (exp_bits f)) && negb (fp_fraction f x =? 0).

(** Modelled from the spec: +0.0 or -0.0, the values the [fp_zero_equal]
    rule of the absent [test_equal] speaks of. *)
Definition fp_is_zero (f : fp_format) (x : Z) : bool :=
  fp_magnitude f x =? 0.

(** Modelled from the spec: part of the ULP distance of the absent
    [test_equal].  Position of a value on the line of representable values,
    in steps of one unit in the last place: both zeros are at 0, the
    positive values count up with their magnitude, the negative values
    count down with it. *)
Definition fp_rank (f : fp_format) (x : Z) : Z :=
  if fp_sign f x then - fp_magnitude f x else fp_magnitude f x.

(** Modelled from the spec: [|a - b|] expressed in ULPs, the number of
    representable steps between the two values.  The body of the
    comparison routine is not in the sources.  +0.0 and -0.0 are the same
    value, at distance 0. *)
Definition ulp_distance (f : fp_format) (a b : Z) : Z :=
  Z.abs (fp_rank f a - fp_rank f b).

(** Modelled from the spec: how the absent [test_equal] reads an element.
    The value of its bytes, least significant byte first, as on the
    little-endian targets of the library. *)
Definition le_decode (bs : list byte) : Z :=
  foldr (λ b acc, Z.of_N (Byte.to_N b) + 256 * acc) 0 bs.

(** The format of the two floating-point tags. *)
Definition fp_format_of (t : VectorType) : option fp_format :=
  match t with
  | TYPE_FLOAT32 => Some binary32
  | TYPE_FLOAT64 => Some binary64
  | _ => None
  end.

(** ** The comparator *)

(** Modelled from the spec: the lines [test_equal], whose body is not in
    the sources, writes to its sink.  One constructor per kind of report,
    with the fields the spec lists. *)
Inductive diagnostic : Type :=
| SectionCountMismatch (a_arch b_arch : string) (na nb : nat)
| RecordCountMismatch (a_arch b_arch : string) (section : nat) (na nb : nat)
| TypeMismatch (a_arch b_arch : string) (file : string) (line : Z)
    (section : nat) (seq : Z) (ta tb : VectorType)
| LengthMismatch (a_arch b_arch : string) (file : string) (line : Z)
    (section : nat) (seq : Z) (la lb : Z)
| ElementMismatch (a_arch b_arch : string) (file : string) (line : Z)
    (section : nat) (seq : Z) (index : nat) (va vb : list byte).

(** Modelled from the spec: the reports of the absent [test_equal] that are
    of the structural category, section and record counts. *)
Definition is_structural (d : diagnostic) : bool :=
  match d with
  | SectionCountMismatch _ _ _ _ | RecordCountMismatch _ _ _ _ _ => true
  | _ => false
  end.

(** Modelled from the spec: the rule for two floating-point elements, whose
    routine is not in the sources.  An exact match, the same bit pattern on
    both sides, is never a mismatch: the tolerance is the allowed error, and
    a set compares equal to an identical copy of itself.  +0.0 against -0.0
    is decided by [zero_eq]: equal with it, a mismatch without it.  Any
    other pair is equal if both are NaN-free and their distance in ULPs is
    at most the tolerance. *)
Definition fp_elements_equal (f : fp_format) (prec : Z) (zero_eq : bool)
    (a b : Z) : bool :=
  (a =? b)
  || (if fp_is_zero f a && fp_is_zero f b then zero_eq
      else negb (fp_is_nan f a) && negb (fp_is_nan f b)
           && (ulp_distance f a b <=? prec)).

(** Modelled from the spec: the type-aware rule for element [i] of an
    aligned pair.  Integer types need equal bytes; floating-point types use
    the looser of the two declared tolerances, and the zero rule if either
    side set it. *)
Definition elements_equal (ra rb : Result.t) (i : nat) : bool :=
  match fp_format_of (Result.type ra) with
  | Some f =>
      fp_elements_equal f
        (Z.max (precision_for_result ra) (precision_for_result rb))
        (Result.fp_zero_eq ra || Result.fp_zero_eq rb)
        (le_decode (Result.slot ra i)) (le_decode (Result.slot rb i))
  | None => bool_decide (Result.slot ra i = Result.slot rb i)
  end.

(** Modelled from the spec: the line the absent [test_equal] writes for
    element [i]: labels, source location of the record, section, sequence
    number, index and both values. *)
Definition element_report (a_arch b_arch : string) (section : nat)
    (ra rb : Result.t) (i : nat) : diagnostic :=
  ElementMismatch a_arch b_arch (Result.file ra) (Result.line ra) section
    (Result.seq ra) i (Result.slot ra i) (Result.slot rb i).

(** Modelled from the spec: one aligned pair of records.  A type or length
    mismatch is reported and the numeric comparison skipped; otherwise every
    mismatching element is reported with its index. *)
Definition compare_records (a_arch b_arch : string) (section : nat)
    (ra rb : Result.t) : list diagnostic :=
  if decide (Result.type ra ≠ Result.type rb) then
    [TypeMismatch a_arch b_arch (Result.file ra) (Result.line ra) section
       (Result.seq ra) (Result.type ra) (Result.type rb)]
  else if decide (Result.length ra ≠ Result.length rb) then
    [LengthMismatch a_arch b_arch (Result.file ra) (Result.line ra) section
       (Result.seq ra) (Result.length ra) (Result.length rb)]
  else
    omap (λ i, if elements_equal ra rb i then None
               else Some (element_report a_arch b_arch section ra rb i))
         (seq 0 (Z.to_nat (Result.length ra))).

(** Modelled from the spec: one section index.  Differing record counts are
    one structural report and the records of the section are skipped. *)
Definition compare_sections (a_arch b_arch : string) (section : nat)
    (sa sb : list Result.t) : list diagnostic :=
  if decide (length sa ≠ length sb) then
    [RecordCountMismatch a_arch b_arch section (length sa) (length sb)]
  else
    concat (zip_with (compare_records a_arch b_arch section) sa sb).

(** Modelled from the spec: the body of [test_equal] is not in the sources.
    [err] is the text already in the sink; the result is the verdict and
    the sink afterwards.  Differing section counts are one structural
    report and an immediate failure; otherwise the sections are walked in
    lockstep and the verdict is success when nothing was reported. *)
Definition test_equal (a : TestResultsSet) (a_arch : string)
    (b : TestResultsSet) (b_arch : string) (err : list diagnostic)
  : bool * list diagnostic :=
  if decide (length (results_ a) ≠ length (results_ b)) then
    (false, err ++ [SectionCountMismatch a_arch b_arch
                      (length (results_ a)) (length (results_ b))])
  else
    let reports :=
      concat (imap (λ sec '(sa, sb), compare_sections a_arch b_arch sec sa sb)
                   (zip (results_ a) (results_ b))) in
    (match reports with [] => true | _ => false end, err ++ reports).

(** The lines a call added to the sink. *)
Definition reported (a : TestResultsSet) (a_arch : string)
    (b : TestResultsSet) (b_arch : string) : list diagnostic :=
  (test_equal a a_arch b b_arch []).2.

(** ** Records reachable through the operations of [Result]

    A record built by the constructor from [atype], [alength] and
    [ael_size], then changed by any number of returning [set] calls. *)
Inductive constructed (atype : VectorType) (alength ael_size : Z)
  : Result.t → Prop :=
| constructed_ctor afile aline aseq aprec_ulp afp_zero_eq :
    constructed atype alength ael_size
      (Result.ctor atype alength ael_size afile aline aseq aprec_ulp
         afp_zero_eq)
| constructed_set r id adata r' :
    constructed atype alength ael_size r →
    Result.set r id adata = Returns r' →
    constructed atype alength ael_size r'.

(** ** Sample inputs *)

(** Two [float] elements, as [push(TYPE_FLOAT32, 2, "test.cc", 10)] builds
    them on a new set. *)
Definition sample_record : Result.t :=
  Result.ctor TYPE_FLOAT32 2 4 "test.cc" 10 1 0 false.

Definition sample_bytes : list byte :=
  [Byte.x01; Byte.x02; Byte.x03; Byte.x04].

(** What a call that only moves the policy cursor leaves alone. *)
Definition policy_frame (s s' : TestResultsSet) : Prop :=
  name_ s' = name_ s ∧ seq_ s' = seq_ s
  ∧ curr_results_section_ s' = curr_results_section_ s
  ∧ results_ s' = results_ s.

Definition sample_set : TestResultsSet := TestResultsSet_ctor "test".

(** One section with one [float] record. *)
Definition sample_set_one : TestResultsSet :=
  (push sample_set TYPE_FLOAT32 1 "test.cc" 10).1.

(** The same, then a marker and a record of two bytes: two sections. *)
Definition sample_set_two : TestResultsSet :=
  (push (sync_archs sample_set_one) TYPE_UINT8 2 "test.cc" 12).1.

(** The pattern [0xFFFFFFFF], a NaN in either byte order. *)
Definition nan_bytes : list byte := [Byte.xff; Byte.xff; Byte.xff; Byte.xff].

(** [sample_set_one] after [set(0, &nan)] on its record. *)
Definition sample_nan_set : TestResultsSet :=
  match set_at sample_set_one (0%nat, 0%nat) 0 nan_bytes with
  | Returns s => s
  | _ => sample_set_one
  end.

(** One [float] holding +0.0, pushed under [set_fp_zero_equal]. *)
Definition plus_zero_record : Result.t :=
  Result.ctor TYPE_FLOAT32 1 4 "test.cc" 10 1 0 true.

(** One [float] holding -0.0 ([0x80000000], least significant byte first). *)
Definition minus_zero_record : Result.t :=
  Result.with_data (Result.ctor TYPE_FLOAT32 1 4 "test.cc" 10 1 0 false)
    [Byte.x00; Byte.x00; Byte.x00; Byte.x80].

(** The harness loop [for (i = 0; i < n; i++) r.set(i, &v[i])] through the
    reference [p], starting at index [id]. *)
Fixpoint fill (s : TestResultsSet) (p : result_ref) (id : Z)
    (elems : list (list byte)) : outcome TestResultsSet :=
  match elems with
  | [] => Returns s
  | e :: rest =>
      match set_at s p id e with
      | Returns s' => fill s' p (id + 1) rest
      | o => o
      end
  end.

(** A new set with one [float] vector holding [values], pushed under the
    tolerance [prec]. *)
Definition float_set (prec : Z) (values : list (list byte)) : TestResultsSet :=
  let pushed :=
    push (set_precision (TestResultsSet_ctor "test") prec) TYPE_FLOAT32
         (Z.of_nat (length values)) "test.cc" 10 in
  match fill pushed.1 pushed.2 0 values with
  | Returns s => s
  | _ => pushed.1
  end.

(** [float] values, least significant byte first. *)
Definition f32_1 : list byte := [Byte.x00; Byte.x00; Byte.x80; Byte.x3f].
Definition f32_2 : list byte := [Byte.x00; Byte.x00; Byte.x00; Byte.x40].
Definition f32_3 : list byte := [Byte.x00; Byte.x00; Byte.x40; Byte.x40].
Definition f32_4 : list byte := [Byte.x00; Byte.x00; Byte.x80; Byte.x40].
Definition f32_5 : list byte := [Byte.x00; Byte.x00; Byte.xa0; Byte.x40].
(** 4.0 moved up by two and by three units in the last place. *)
Definition f32_4_up2 : list byte := [Byte.x02; Byte.x00; Byte.x80; Byte.x40].
Definition f32_4_up3 : list byte := [Byte.x03; Byte.x00; Byte.x80; Byte.x40].

(** ** The calls of a harness run

    One call of the interface of a results set, [set] on a pushed record
    included. *)
Inductive api_step : TestResultsSet → TestResultsSet → Prop :=
| step_push s t len file line : api_step s (push s t len file line).1
| step_set_precision s num_ulp : api_step s (set_precision s num_ulp)
| step_unset_precision s : api_step s (unset_precision s)
| step_set_fp_zero_equal s : api_step s (set_fp_zero_equal s)
| step_unset_fp_zero_equal s : api_step s (unset_fp_zero_equal s)
| step_reset_seq s : api_step s (reset_seq s)
| step_sync_archs s : api_step s (sync_archs s)
| step_set_at s p id adata s' :
    set_at s p id adata = Returns s' → api_step s s'.

(** The comparison policy of a record. *)
Definition policy (r : Result.t) : Z * bool :=
  (Result.prec_ulp r, Result.fp_zero_eq r).

(** ** [SeqTestSuite]: the tally of the verdicts *)

Record SeqTestSuite : Type := mkSeqTestSuite {
  num_failure_ : Z;
  num_success_ : Z
}.

(** [SeqTestSuite() : num_failure_(0), num_success_(0) {}] *)
Definition SeqTestSuite_ctor : SeqTestSuite :=
  {| num_failure_ := 0; num_success_ := 0 |}.

Definition num_failure (s : SeqTestSuite) : Z := num_failure_ s.
Definition num_success (s : SeqTestSuite) : Z := num_success_ s.

(** [if (success) num_success_++; else num_failure_++;] on two
    [unsigned] counters. *)
Definition add_result (s : SeqTestSuite) (success : bool) : SeqTestSuite :=
  if success then
    {| num_failure_ := num_failure_ s; num_success_ := uinc (num_success_ s) |}
  else
    {| num_failure_ := uinc (num_failure_ s); num_success_ := num_success_ s |}.

(** [return num_failure_ == 0;] *)
Definition success (s : SeqTestSuite) : bool := num_failure_ s =? 0.

(** The verdicts of a run, added in order. *)
Definition add_results (s : SeqTestSuite) (verdicts : list bool) : SeqTestSuite :=
  foldl add_result s verdicts.

(** How many verdicts of a run are successes, how many failures. *)
Definition successes (verdicts : list bool) : nat :=
  length (filter (λ b, b = true) verdicts).
Definition failures (verdicts : list bool) : nat :=
  length (filter (λ b, b = false) verdicts).

(** The loop [for (i = 0; i < n; i++) r.set(id + i, &v[i])] on one record. *)
Fixpoint set_all (r : Result.t) (id : Z) (elems : list (list byte))
  : outcome Result.t :=
  match elems with
  | [] => Returns r
  | e :: rest =>
      match Result.set r id e with
      | Returns r' => set_all r' (id + 1) rest
      | o => o
      end
  end.

(** One call of a mutator the header defines inline: the four policy calls,
    [reset_seq] and [sync_archs]. *)
Inductive header_step : TestResultsSet → TestResultsSet → Prop :=
| hstep_set_precision s num_ulp : header_step s (set_precision s num_ulp)
| hstep_unset_precision s : header_step s (unset_precision s)
| hstep_set_fp_zero_equal s : header_step s (set_fp_zero_equal s)
| hstep_unset_fp_zero_equal s : header_step s (unset_fp_zero_equal s)
| hstep_reset_seq s : header_step s (reset_seq s)
| hstep_sync_archs s : header_step s (sync_archs s).



(** * Properties *)

(** ** Arithmetic and buffers *)

Lemma UINT_MOD_eq : UINT_MOD = 4294967296.
Proof. reflexivity. Qed.

Lemma uint_small (z : Z) : is_uint z → uint z = z.
Proof. intros H. unfold uint. apply Z.mod_small. exact H. Qed.

Lemma uint_is_uint (z : Z) : is_uint (uint z).
Proof. unfold is_uint, uint. apply Z.mod_pos_bound. rewrite UINT_MOD_eq. lia. Qed.

Lemma vector_resize_nil (n : nat) : vector_resize [] n = replicate n zero_byte.
Proof.
  unfold vector_resize. rewrite take_nil. simpl. by rewrite Nat.sub_0_r.
Qed.

Lemma memcpy_length dst off src n d :
  memcpy dst off src n = Some d → length d = length dst.
Proof.
  unfold memcpy. case_decide as Hin; [|done]. intros [= <-].
  rewrite !length_app, !length_take, length_drop. lia.
Qed.

(** Byte [i] after the copy: a byte of the source inside the destination
    range, the old byte elsewhere. *)
Lemma memcpy_lookup dst off src n d (i : nat) :
  memcpy dst off src n = Some d →
  d !! i = if decide (off <= i < off + n)%nat then src !! (i - off)%nat
           else dst !! i.
Proof.
  unfold memcpy. case_decide as Hin; [|done]. intros [= <-].
  destruct Hin as [Hdst Hsrc].
  assert (Hl1 : length (take off dst) = off) by (rewrite length_take; lia).
  assert (Hl2 : length (take n src) = n) by (rewrite length_take; lia).
  case_decide as Hi.
  - rewrite lookup_app_r by lia. rewrite Hl1.
    rewrite lookup_app_l by lia. apply lookup_take_lt. lia.
  - destruct (decide (i < off)%nat) as [Hlt|Hge].
    + rewrite lookup_app_l by lia. apply lookup_take_lt. lia.
    + rewrite lookup_app_r by lia. rewrite Hl1.
      rewrite lookup_app_r by lia. rewrite Hl2, lookup_drop.
      f_equal. lia.
Qed.

Lemma slot_lookup (r : Result.t) (i m : nat) :
  Result.slot r i !! m =
    if decide (m < Z.to_nat (Result.el_size r))%nat
    then Result.data r !! (i * Z.to_nat (Result.el_size r) + m)%nat
    else None.
Proof. unfold Result.slot. by rewrite lookup_take, lookup_drop. Qed.

(** ** The constructor of [Result] *)

Lemma ctor_data atype alength ael_size afile aline aseq aprec_ulp afp_zero_eq :
  Result.data (Result.ctor atype alength ael_size afile aline aseq aprec_ulp
                 afp_zero_eq)
  = replicate (Z.to_nat (umul ael_size alength)) zero_byte.
Proof. unfold Result.ctor. simpl. apply vector_resize_nil. Qed.

Lemma ctor_data_length atype alength ael_size afile aline aseq aprec_ulp
    afp_zero_eq :
  Z.of_nat (length (Result.data (Result.ctor atype alength ael_size afile aline
                                   aseq aprec_ulp afp_zero_eq)))
  = umul ael_size alength.
Proof.
  rewrite ctor_data, length_replicate. rewrite Z2Nat.id; [done|].
  apply uint_is_uint.
Qed.

Lemma ctor_sized atype alength ael_size afile aline aseq aprec_ulp afp_zero_eq :
  0 <= ael_size → 0 <= alength → ael_size * alength < UINT_MOD →
  Result.sized (Result.ctor atype alength ael_size afile aline aseq aprec_ulp
                  afp_zero_eq).
Proof.
  intros He Hl Hfit. unfold Result.sized.
  rewrite ctor_data_length. simpl. repeat split; try done.
  unfold umul. apply uint_small. unfold is_uint. nia.
Qed.

(** ** [Result::set] *)

Lemma set_Returns_inv (r r' : Result.t) (id : Z) (adata : list byte) :
  Result.set r id adata = Returns r' →
  ∃ bytes,
    memcpy (Result.data r) (Z.to_nat (umul id (Result.el_size r))) adata
           (Z.to_nat (Result.el_size r)) = Some bytes
    ∧ r' = Result.with_data r bytes.
Proof.
  unfold Result.set. destruct (memcpy _ _ _ _) as [bytes|]; [|done].
  intros [= <-]. by exists bytes.
Qed.

(** The source of [set] has neither an assertion nor a [throw]. *)
Lemma set_never_raises (r : Result.t) (id : Z) (adata : list byte) :
  ¬ fails_loudly (Result.set r id adata).
Proof. unfold Result.set. destruct (memcpy _ _ _ _); simpl; tauto. Qed.

Lemma set_frame (r r' : Result.t) (id : Z) (adata : list byte) :
  Result.set r id adata = Returns r' →
  Result.type r' = Result.type r ∧ Result.length r' = Result.length r ∧
  Result.el_size r' = Result.el_size r ∧
  Result.prec_ulp r' = Result.prec_ulp r ∧
  Result.fp_zero_eq r' = Result.fp_zero_eq r ∧
  Result.seq r' = Result.seq r ∧ Result.file r' = Result.file r ∧
  Result.line r' = Result.line r ∧
  length (Result.data r') = length (Result.data r).
Proof.
  intros (bytes & Hcpy & ->)%set_Returns_inv. simpl.
  repeat split. by apply memcpy_length in Hcpy.
Qed.

(** Offsets of an in-range element, in [nat]. *)
Lemma in_range_offsets (r : Result.t) (id : Z) :
  Result.sized r → 0 <= id < Result.length r →
  Z.to_nat (umul id (Result.el_size r))
    = (Z.to_nat id * Z.to_nat (Result.el_size r))%nat
  ∧ (Z.to_nat id * Z.to_nat (Result.el_size r) + Z.to_nat (Result.el_size r)
     <= length (Result.data r))%nat.
Proof.
  intros (He & Hl & Hfit & Hsz) Hid.
  assert (Hoff : umul id (Result.el_size r) = id * Result.el_size r).
  { unfold umul. apply uint_small. unfold is_uint. nia. }
  rewrite Hoff. split; [rewrite Z2Nat.inj_mul; lia|].
  apply Nat2Z.inj_le. rewrite Hsz.
  rewrite Nat2Z.inj_add, Nat2Z.inj_mul, !Z2Nat.id by lia. nia.
Qed.

(** C4 (counterexample).  [set] with an index that is not below [length]
    does not fail loudly.  On a record of two 4-byte elements, index 2 makes
    the [memcpy] leave the buffer, which is undefined behaviour and not a
    reported error; index [2^30] makes the [unsigned] product [id*el_size]
    wrap to 0, and the call returns after overwriting slot 0. *)
Lemma set_out_of_range_is_silent :
  Result.length sample_record <= 2
  ∧ Result.set sample_record 2 sample_bytes = Undefined
  ∧ ¬ fails_loudly (Result.set sample_record 2 sample_bytes)
  ∧ Result.length sample_record <= 2 ^ 30
  ∧ Result.set sample_record (2 ^ 30) sample_bytes
    = Returns (Result.with_data sample_record
                 (sample_bytes ++ replicate 4 zero_byte)).
Proof.
  split; [vm_compute; discriminate|].
  split; [reflexivity|].
  split; [apply set_never_raises|].
  split; [vm_compute; discriminate|reflexivity].
Qed.

(** C4 (amended).  On a record whose buffer has [length * el_size] bytes,
    [set(id, adata)] with [id < length] returns, puts the first [el_size]
    bytes of [adata] into slot [id], and leaves every other slot and the
    size of the buffer as they were.  With [id >= length] nothing is
    checked: the call never aborts or raises, and when [id*el_size] does
    not wrap the [memcpy] leaves the buffer (undefined behaviour). *)
Theorem set_copies_in_range_unchecked_beyond
    (r : Result.t) (id : Z) (adata : list byte) :
  Result.sized r → 0 <= id →
  (Z.to_nat (Result.el_size r) <= length adata)%nat →
  (id < Result.length r →
     ∃ r', Result.set r id adata = Returns r'
       ∧ Result.slot r' (Z.to_nat id) = take (Z.to_nat (Result.el_size r)) adata
       ∧ (∀ j : nat, j ≠ Z.to_nat id → Result.slot r' j = Result.slot r j)
       ∧ length (Result.data r') = length (Result.data r)
       ∧ r' = Result.with_data r (Result.data r'))
  ∧ (Result.length r <= id →
       ¬ fails_loudly (Result.set r id adata)
       ∧ (0 < Result.el_size r → id * Result.el_size r < UINT_MOD →
          Result.set r id adata = Undefined)).
Proof.
  intros Hs Hid Hsrc. split.
  - intros Hlt.
    destruct (in_range_offsets r id Hs (conj Hid Hlt)) as [Hoff Hfit].
    set (e := Z.to_nat (Result.el_size r)) in *.
    set (k := Z.to_nat id) in *.
    destruct (memcpy (Result.data r) (k * e) adata e) as [bytes|] eqn:Hcpy.
    2:{ unfold memcpy in Hcpy. case_decide as Hno; [done|]. lia. }
    exists (Result.with_data r bytes).
    assert (Hset : Result.set r id adata = Returns (Result.with_data r bytes)).
    { unfold Result.set. fold e. rewrite Hoff, Hcpy. done. }
    split; [exact Hset|]. split; [|split; [|split; [|reflexivity]]].
    + apply list_eq. intros m. rewrite slot_lookup. simpl. fold e k.
      rewrite lookup_take. case_decide as Hm; [|done].
      rewrite (memcpy_lookup _ _ _ _ _ _ Hcpy).
      case_decide as Hin; [f_equal; lia|lia].
    + intros j Hj. apply list_eq. intros m. rewrite !slot_lookup. simpl. fold e.
      case_decide as Hm; [|done].
      rewrite (memcpy_lookup _ _ _ _ _ _ Hcpy).
      case_decide as Hin; [|done]. exfalso.
      destruct (decide (j < k)%nat); nia.
    + simpl. by apply memcpy_length in Hcpy.
  - intros Hge. split; [apply set_never_raises|].
    intros Hpos Hnowrap. destruct Hs as (He & Hl & Hfit & Hsz).
    unfold Result.set, memcpy.
    assert (Hoff : umul id (Result.el_size r) = id * Result.el_size r).
    { unfold umul. apply uint_small. unfold is_uint. nia. }
    rewrite Hoff. case_decide as Hin; [|done]. exfalso.
    destruct Hin as [Hin _]. apply Nat2Z.inj_le in Hin.
    rewrite Hsz, Nat2Z.inj_add, !Z2Nat.id in Hin by nia. nia.
Qed.

(** The in-range case on the sample record: index 1 of 2. *)
Lemma set_copies_in_range_unchecked_beyond_witness :
  Result.sized sample_record ∧ 0 <= 1 < Result.length sample_record
  ∧ ∃ r', Result.set sample_record 1 sample_bytes = Returns r'
       ∧ Result.slot r' 1 = sample_bytes.
Proof.
  assert (Hs : Result.sized sample_record).
  { apply ctor_sized; [lia|lia|reflexivity]. }
  split; [exact Hs|]. split; [vm_compute; split; [discriminate|reflexivity]|].
  destruct (set_copies_in_range_unchecked_beyond sample_record 1 sample_bytes Hs)
    as [Hin _]; [lia|simpl; lia|].
  destruct Hin as (r' & Hset & Hslot & _); [reflexivity|].
  exists r'. split; [exact Hset|exact Hslot].
Defined.

(** C5 (counterexample).  The constructor takes the element size as an
    argument of its own: two records of one type differ in [el_size], and
    the second has not the size of its type. *)
Lemma el_size_is_a_constructor_argument :
  Result.type (Result.ctor TYPE_INT8 1 1 "test.cc" 10 1 0 false)
  = Result.type (Result.ctor TYPE_INT8 1 2 "test.cc" 10 1 0 false)
  ∧ Result.el_size (Result.ctor TYPE_INT8 1 1 "test.cc" 10 1 0 false)
    ≠ Result.el_size (Result.ctor TYPE_INT8 1 2 "test.cc" 10 1 0 false)
  ∧ Result.el_size (Result.ctor TYPE_INT8 1 2 "test.cc" 10 1 0 false)
    ≠ size_for_type TYPE_INT8.
Proof. repeat split; discriminate. Qed.

(** C5 (amended).  After construction and after every returning [set],
    [data.size() == length * el_size] holds for the [unsigned] product,
    which is the product itself when it fits; [type], [length] and
    [el_size] stay what the constructor received, [el_size] being its
    [ael_size] argument. *)
Theorem data_size_invariant (atype : VectorType) (alength ael_size : Z)
    (r : Result.t) :
  constructed atype alength ael_size r →
  Z.of_nat (length (Result.data r)) = umul (Result.el_size r) (Result.length r)
  ∧ Result.type r = atype
  ∧ Result.length r = alength
  ∧ Result.el_size r = ael_size
  ∧ (0 <= ael_size → 0 <= alength → ael_size * alength < UINT_MOD →
     Z.of_nat (length (Result.data r)) = Result.length r * Result.el_size r).
Proof.
  induction 1 as [afile aline aseq aprec afz|r id adata r' Hr IH Hset].
  - rewrite ctor_data_length. simpl. repeat split; try done.
    intros He Hl Hfit. unfold umul. rewrite uint_small; [lia|].
    unfold is_uint. nia.
  - destruct IH as (Hsz & Hty & Hlen & Hes & Hfit).
    apply set_frame in Hset
      as (Hty' & Hlen' & Hes' & _ & _ & _ & _ & _ & Hdata').
    rewrite Hdata', Hty', Hlen', Hes'. repeat split; done.
Qed.

(** The invariant on the sample record: 2 elements of 4 bytes, 8 bytes. *)
Lemma data_size_invariant_witness :
  constructed TYPE_FLOAT32 2 4 sample_record
  ∧ Z.of_nat (length (Result.data sample_record)) = 8
  ∧ Result.el_size sample_record = 4.
Proof.
  assert (Hc : constructed TYPE_FLOAT32 2 4 sample_record)
    by apply constructed_ctor.
  split; [exact Hc|].
  destruct (data_size_invariant TYPE_FLOAT32 2 4 sample_record Hc)
    as (Hsz & _ & _ & Hes & _).
  split; [rewrite Hsz; reflexivity|exact Hes].
Defined.

(** C10.  The constructor has no guard on its length argument: for every
    type and element size, [alength = 0] yields a record whose buffer is
    empty, the vector being resized to [el_size*0] bytes. *)
Theorem ctor_length_zero (atype : VectorType) (ael_size : Z) (afile : string)
    (aline aseq aprec_ulp : Z) (afp_zero_eq : bool) :
  Result.data (Result.ctor atype 0 ael_size afile aline aseq aprec_ulp
                 afp_zero_eq) = []
  ∧ Result.length (Result.ctor atype 0 ael_size afile aline aseq aprec_ulp
                     afp_zero_eq) = 0
  ∧ Result.type (Result.ctor atype 0 ael_size afile aline aseq aprec_ulp
                   afp_zero_eq) = atype.
Proof.
  rewrite ctor_data. unfold umul. rewrite Z.mul_0_r. done.
Qed.

(** ** The results set: [push], the policy cursor, [sync_archs] *)

Lemma ensure_section_length (res : list (list Result.t)) (sec : nat) :
  (sec < length (ensure_section res sec))%nat.
Proof.
  unfold ensure_section. rewrite length_app, length_replicate. lia.
Qed.

(** The reference [push] returns designates the record it has built. *)
Lemma push_deref (s : TestResultsSet) (t : VectorType) (len : Z)
    (file : string) (line : Z) :
  deref (push s t len file line).1 (push s t len file line).2
  = Some (Result.ctor t len (size_for_type t) file line (seq_ s)
            (curr_precision_ulp_ s) (negb (curr_fp_zero_equal_ s =? 0))).
Proof.
  unfold push, deref. simpl.
  rewrite list_lookup_insert_eq by apply ensure_section_length. simpl.
  rewrite lookup_app_r by lia. by rewrite Nat.sub_diag.
Qed.

Lemma sync_archs_results (s : TestResultsSet) :
  get_results (sync_archs s) = get_results s.
Proof. reflexivity. Qed.

(** A record built by [push] has the element size of its type and the
    policy the cursor holds at that moment. *)
Lemma push_record_fields (s : TestResultsSet) (t : VectorType) (len : Z)
    (file : string) (line : Z) (r : Result.t) :
  deref (push s t len file line).1 (push s t len file line).2 = Some r →
  Result.el_size r = size_for_type (Result.type r)
  ∧ Result.seq r = seq_ s
  ∧ Result.prec_ulp r = curr_precision_ulp_ s
  ∧ Result.fp_zero_eq r = negb (curr_fp_zero_equal_ s =? 0).
Proof. rewrite push_deref. by intros [= <-]. Qed.

(** A later [push] leaves the records already in the set where and as they
    are. *)
Lemma push_keeps_records (s : TestResultsSet) (t : VectorType) (len : Z)
    (file : string) (line : Z) (q : result_ref) (r : Result.t) :
  deref s q = Some r → deref (push s t len file line).1 q = Some r.
Proof.
  destruct q as [i j]. unfold deref, push. simpl.
  destruct (results_ s !! i) as [sect|] eqn:Hi; [simpl|done].
  intros Hj. set (sec := Z.to_nat (curr_results_section_ s)).
  assert (Hres : ensure_section (results_ s) sec !! i = Some sect).
  { unfold ensure_section. by apply lookup_app_l_Some. }
  destruct (decide (sec = i)) as [->|Hne].
  - rewrite list_lookup_insert_eq by apply ensure_section_length.
    rewrite Hres. simpl. by apply lookup_app_l_Some.
  - rewrite list_lookup_insert_ne by done. by rewrite Hres.
Qed.

(** After a push the set has its sections up to the current one. *)
Lemma push_results_length (s : TestResultsSet) (t : VectorType) (len : Z)
    (file : string) (line : Z) :
  length (get_results (push s t len file line).1)
  = (length (get_results s) `max` S (Z.to_nat (curr_results_section_ s)))%nat.
Proof.
  unfold push, get_results, ensure_section. simpl.
  rewrite length_insert, length_app, length_replicate. lia.
Qed.

(** The section a marker opens shows in [get_results()] with the next push:
    when the current section was the last one, that push adds one section. *)
Lemma next_push_opens_section (s : TestResultsSet) (t : VectorType) (len : Z)
    (file : string) (line : Z) :
  0 <= curr_results_section_ s < UINT_MOD - 1 →
  length (get_results s) = S (Z.to_nat (curr_results_section_ s)) →
  length (get_results (sync_archs s)) = length (get_results s)
  ∧ length (get_results (push (sync_archs s) t len file line).1)
    = S (length (get_results s)).
Proof.
  intros Hsec Hlast. split; [reflexivity|].
  rewrite push_results_length, sync_archs_results, Hlast.
  change (curr_results_section_ (sync_archs s))
    with (uinc (curr_results_section_ s)).
  unfold uinc. rewrite uint_small by (unfold is_uint; lia).
  rewrite Z2Nat.inj_add by lia. simpl. lia.
Qed.

(** C6 (counterexample).  After a push, [sync_archs] does not increment the
    number of sections of the set: [get_results()] has one section before
    the marker and one section after it. *)
Lemma sync_archs_after_push_keeps_section_count :
  length (get_results sample_set_one) = 1%nat
  ∧ length (get_results (sync_archs sample_set_one)) = 1%nat
  ∧ length (get_results (sync_archs sample_set_one))
    ≠ S (length (get_results sample_set_one)).
Proof. split; [reflexivity|]. split; [reflexivity|discriminate]. Qed.

(** C6 (amended).  After any push, [sync_archs] sets the sequence counter to
    1, so the record of the next push has sequence number 1, and it
    increments the section cursor [curr_results_section_] by one
    ([unsigned] increment, which is [+ 1] below [UINT_MAX]); the sections
    [get_results()] shows, and so their number, are as before the call. *)
Theorem sync_archs_after_push (s : TestResultsSet)
    (t : VectorType) (len : Z) (file : string) (line : Z)
    (t' : VectorType) (len' : Z) (file' : string) (line' : Z) :
  let s1 := (push s t len file line).1 in
  let s2 := sync_archs s1 in
  let next := push s2 t' len' file' line' in
  seq_ s2 = 1
  ∧ Result.seq <$> deref next.1 next.2 = Some 1
  ∧ get_results s2 = get_results s1
  ∧ curr_results_section_ s2 = uinc (curr_results_section_ s1)
  ∧ (0 <= curr_results_section_ s1 < UINT_MOD - 1 →
     curr_results_section_ s2 = curr_results_section_ s1 + 1).
Proof.
  intros s1 s2 next. split; [reflexivity|]. split; [|split; [|split]].
  - subst next. rewrite push_deref. reflexivity.
  - apply sync_archs_results.
  - reflexivity.
  - intros Hsec. change (curr_results_section_ s2)
      with (uinc (curr_results_section_ s1)).
    unfold uinc. apply uint_small. unfold is_uint. lia.
Qed.

(** On a new set the marker after the first push makes section 1 the
    current one. *)
Lemma sync_archs_after_push_witness :
  0 <= curr_results_section_ (push sample_set TYPE_FLOAT32 4 "test.cc" 10).1
    < UINT_MOD - 1
  ∧ curr_results_section_
      (sync_archs (push sample_set TYPE_FLOAT32 4 "test.cc" 10).1) = 1.
Proof.
  assert (H : 0 <= curr_results_section_
                     (push sample_set TYPE_FLOAT32 4 "test.cc" 10).1
                < UINT_MOD - 1) by (vm_compute; split; [discriminate|reflexivity]).
  split; [exact H|].
  exact (proj2 (proj2 (proj2 (proj2
    (sync_archs_after_push sample_set TYPE_FLOAT32 4 "test.cc" 10
       TYPE_FLOAT32 4 "test.cc" 11)))) H).
Defined.

(** C7 (counterexample).  On a new set, two calls of [sync_archs] leave
    [get_results()] with the sections it had at creation: [sync_archs]
    advances the cursor and does not touch [results_]. *)
Lemma two_sync_archs_section_count :
  length (get_results (sync_archs (sync_archs sample_set))) = 1%nat
  ∧ length (get_results (sync_archs (sync_archs sample_set))) ≠ 3%nat.
Proof. split; [reflexivity|discriminate]. Qed.

(** C7 (amended).  On a new set, after two calls of [sync_archs] with no
    push, [num_results()] is 0, [get_results()] is what it was at creation,
    and the section cursor is 2: the third section is the current one. *)
Theorem two_sync_archs_on_new_set (aname : string) :
  num_results (sync_archs (sync_archs (TestResultsSet_ctor aname))) = 0%nat
  ∧ get_results (sync_archs (sync_archs (TestResultsSet_ctor aname)))
    = get_results (TestResultsSet_ctor aname)
  ∧ curr_results_section_ (sync_archs (sync_archs (TestResultsSet_ctor aname)))
    = 2
  ∧ seq_ (sync_archs (sync_archs (TestResultsSet_ctor aname))) = 1.
Proof. repeat split. Qed.

(** C8.  For a type and a length whose buffer size fits an [unsigned], the
    record [push] has just built has a buffer of [length * element_size]
    bytes, all of them zero. *)
Theorem push_zeroed_buffer (s : TestResultsSet) (t : VectorType) (len : Z)
    (file : string) (line : Z) :
  0 <= len → len * size_for_type t < UINT_MOD →
  ∃ r, deref (push s t len file line).1 (push s t len file line).2 = Some r
     ∧ Result.type r = t
     ∧ Result.length r = len
     ∧ Result.el_size r = size_for_type t
     ∧ Z.of_nat (length (Result.data r)) = len * size_for_type t
     ∧ Forall (λ b, b = zero_byte) (Result.data r).
Proof.
  intros Hlen Hfit. eexists. split; [apply push_deref|].
  assert (Hsz : umul (size_for_type t) len = len * size_for_type t).
  { unfold umul. rewrite uint_small; [lia|].
    unfold is_uint. destruct t; simpl in *; lia. }
  rewrite ctor_data, length_replicate, Hsz. simpl.
  repeat split.
  - apply Z2Nat.id. destruct t; simpl; lia.
  - apply Forall_replicate. reflexivity.
Qed.

(** Four [float] elements: sixteen zero bytes. *)
Lemma push_zeroed_buffer_witness :
  ∃ r, deref (push sample_set TYPE_FLOAT32 4 "test.cc" 10).1
             (push sample_set TYPE_FLOAT32 4 "test.cc" 10).2 = Some r
     ∧ Result.data r = replicate 16 zero_byte.
Proof.
  destruct (push_zeroed_buffer sample_set TYPE_FLOAT32 4 "test.cc" 10)
    as (r & Hr & _ & _ & _ & Hsz & Hzero); [lia|reflexivity|].
  exists r. split; [exact Hr|].
  rewrite push_deref in Hr. injection Hr as <-. reflexivity.
Defined.

(** C9.  [set_precision], [unset_precision], [set_fp_zero_equal] and
    [unset_fp_zero_equal] change the policy cursor only: name, sequence
    counter, section cursor and [results_] are as before, so every pushed
    record, with its [prec_ulp] and [fp_zero_eq], is as before; and [set],
    the one operation of a record, leaves its two policy fields alone. *)
Theorem policy_calls_keep_records (s : TestResultsSet) (num_ulp : Z) :
  (policy_frame s (set_precision s num_ulp)
   ∧ curr_precision_ulp_ (set_precision s num_ulp) = num_ulp
   ∧ curr_fp_zero_equal_ (set_precision s num_ulp) = curr_fp_zero_equal_ s)
  ∧ (policy_frame s (unset_precision s)
     ∧ curr_precision_ulp_ (unset_precision s) = 0
     ∧ curr_fp_zero_equal_ (unset_precision s) = curr_fp_zero_equal_ s)
  ∧ (policy_frame s (set_fp_zero_equal s)
     ∧ curr_precision_ulp_ (set_fp_zero_equal s) = curr_precision_ulp_ s
     ∧ curr_fp_zero_equal_ (set_fp_zero_equal s) = 1)
  ∧ (policy_frame s (unset_fp_zero_equal s)
     ∧ curr_precision_ulp_ (unset_fp_zero_equal s) = curr_precision_ulp_ s
     ∧ curr_fp_zero_equal_ (unset_fp_zero_equal s) = 0)
  ∧ (∀ p : result_ref,
       deref (set_precision s num_ulp) p = deref s p
       ∧ deref (unset_precision s) p = deref s p
       ∧ deref (set_fp_zero_equal s) p = deref s p
       ∧ deref (unset_fp_zero_equal s) p = deref s p)
  ∧ (∀ (r r' : Result.t) (id : Z) (adata : list byte),
       Result.set r id adata = Returns r' →
       Result.prec_ulp r' = Result.prec_ulp r
       ∧ Result.fp_zero_eq r' = Result.fp_zero_eq r).
Proof.
  unfold policy_frame. split_and!; try done.
  intros r r' id adata Hset.
  apply set_frame in Hset as (_ & _ & _ & Hp & Hz & _). by split.
Qed.

(** A [set] on the sample record keeps its tolerance. *)
Lemma policy_calls_keep_records_witness :
  Result.set sample_record 1 sample_bytes
  = Returns (Result.with_data sample_record
               (replicate 4 zero_byte ++ sample_bytes))
  ∧ Result.prec_ulp (Result.with_data sample_record
                       (replicate 4 zero_byte ++ sample_bytes))
    = Result.prec_ulp sample_record.
Proof.
  assert (H : Result.set sample_record 1 sample_bytes
              = Returns (Result.with_data sample_record
                           (replicate 4 zero_byte ++ sample_bytes)))
    by reflexivity.
  split; [exact H|].
  destruct (policy_calls_keep_records sample_set 2)
    as (_ & _ & _ & _ & _ & Hset).
  exact (proj1 (Hset _ _ _ _ H)).
Defined.

(** A [set] through a reference changes the bytes of that record and the
    policy of none. *)
Lemma set_at_keeps_policy (s s' : TestResultsSet) (p : result_ref) (id : Z)
    (adata : list byte) (q : result_ref) (r : Result.t) :
  set_at s p id adata = Returns s' → deref s q = Some r →
  ∃ r', deref s' q = Some r' ∧ policy r' = policy r.
Proof.
  unfold set_at. destruct (deref s p) as [r0|] eqn:Hp; [|done].
  destruct (Result.set r0 id adata) as [r0'| |] eqn:Hset; try done.
  intros [= <-] Hq. destruct p as [i j], q as [i' j'].
  unfold deref in *. simpl in *.
  destruct (results_ s !! i) as [sect|] eqn:Hi; [simpl in Hp|done].
  destruct (decide (i = i')) as [<-|Hne].
  - rewrite list_lookup_alter_eq, Hi. rewrite Hi in Hq. simpl in *.
    destruct (decide (j = j')) as [<-|Hne'].
    + rewrite list_lookup_insert_eq by (by eapply lookup_lt_Some).
      exists r0'. split; [done|]. rewrite Hp in Hq. injection Hq as <-.
      apply set_frame in Hset as (_ & _ & _ & Hprec & Hzero & _).
      unfold policy. by rewrite Hprec, Hzero.
    + rewrite list_lookup_insert_ne by done. by exists r.
  - rewrite list_lookup_alter_ne by done. by exists r.
Qed.

Lemma api_step_keeps_policy (s s' : TestResultsSet) (q : result_ref)
    (r : Result.t) :
  api_step s s' → deref s q = Some r →
  ∃ r', deref s' q = Some r' ∧ policy r' = policy r.
Proof.
  intros Hstep Hq. destruct Hstep; try (by exists r).
  - exists r. split; [by apply push_keeps_records|done].
  - by eapply set_at_keeps_policy.
Qed.

(** Through any run of calls, a record stays where [push] put it and keeps
    the policy it was created with. *)
Lemma run_keeps_policy (s s' : TestResultsSet) (q : result_ref)
    (r : Result.t) :
  rtc api_step s s' → deref s q = Some r →
  ∃ r', deref s' q = Some r' ∧ policy r' = policy r.
Proof.
  intros Hrun. revert r. induction Hrun as [s|s s1 s' Hstep _ IH]; intros r Hq.
  - by exists r.
  - destruct (api_step_keeps_policy s s1 q r Hstep Hq) as (r1 & Hq1 & Hpol1).
    destruct (IH r1 Hq1) as (r' & Hq' & Hpol'). exists r'.
    split; [done|]. by rewrite Hpol'.
Qed.

(** ** The comparator *)

Lemma ulp_distance_diag (f : fp_format) (x : Z) : ulp_distance f x x = 0.
Proof. unfold ulp_distance. rewrite Z.sub_diag. reflexivity. Qed.


Lemma fp_elements_equal_iff (f : fp_format) (prec : Z) (zero_eq : bool)
    (a b : Z) :
  fp_elements_equal f prec zero_eq a b = true ↔
    a = b
    ∨ (fp_is_zero f a && fp_is_zero f b = true ∧ zero_eq = true)
    ∨ (fp_is_zero f a && fp_is_zero f b = false
       ∧ fp_is_nan f a = false ∧ fp_is_nan f b = false
       ∧ ulp_distance f a b <= prec).
Proof.
  unfold fp_elements_equal. rewrite orb_true_iff, Z.eqb_eq.
  destruct (fp_is_zero f a && fp_is_zero f b).
  - intuition congruence.
  - rewrite !andb_true_iff, !negb_true_iff, Z.leb_le. intuition congruence.
Qed.

Lemma omap_all_None {A B} (g : A → option B) (l : list A) :
  (∀ x, x ∈ l → g x = None) → omap g l = [].
Proof.
  induction l as [|x l IH]; intros Hall; [done|].
  simpl. rewrite (Hall x) by left. apply IH.
  intros y Hy. apply Hall. by right.
Qed.

Lemma concat_imap_nil {A B} (g : nat → A → list B) (l : list A) :
  (∀ i x, x ∈ l → g i x = []) → concat (imap g l) = [].
Proof.
  revert g. induction l as [|x l IH]; intros g Hall; [done|].
  simpl. rewrite (Hall 0%nat x) by left. simpl. apply IH.
  intros i y Hy. apply Hall. by right.
Qed.

(** C2.  When the two sets differ in their number of sections, the call
    returns failure and adds one line to the sink, the structural report of
    the two counts; the records play no part in the result. *)
Theorem test_equal_section_count_mismatch (a : TestResultsSet)
    (a_arch : string) (b : TestResultsSet) (b_arch : string)
    (err : list diagnostic) :
  length (get_results a) ≠ length (get_results b) →
  test_equal a a_arch b b_arch err
  = (false,
     err ++ [SectionCountMismatch a_arch b_arch (length (get_results a))
               (length (get_results b))])
  ∧ reported a a_arch b b_arch
    = [SectionCountMismatch a_arch b_arch (length (get_results a))
         (length (get_results b))]
  ∧ is_structural (SectionCountMismatch a_arch b_arch (length (get_results a))
                     (length (get_results b))) = true.
Proof.
  intros Hne. unfold reported, test_equal, get_results in *.
  rewrite !decide_True by done. done.
Qed.

(** One section against two. *)
Lemma test_equal_section_count_mismatch_witness :
  length (get_results sample_set_one) ≠ length (get_results sample_set_two)
  ∧ test_equal sample_set_one "sse2" sample_set_two "avx" []
    = (false, [SectionCountMismatch "sse2" "avx" 1 2]).
Proof.
  assert (H : length (get_results sample_set_one)
              ≠ length (get_results sample_set_two)) by (vm_compute; lia).
  split; [exact H|].
  exact (proj1 (test_equal_section_count_mismatch
                  sample_set_one "sse2" sample_set_two "avx" [] H)).
Defined.

(** Element [i] of a record compares equal to itself, whatever its
    bytes. *)
Lemma elements_equal_refl (r : Result.t) (i : nat) :
  elements_equal r r i = true.
Proof.
  unfold elements_equal.
  destruct (fp_format_of (Result.type r)) as [f|].
  - apply fp_elements_equal_iff. by left.
  - by apply bool_decide_eq_true.
Qed.

Lemma compare_records_refl (a_arch b_arch : string) (section : nat)
    (r : Result.t) :
  compare_records a_arch b_arch section r r = [].
Proof.
  unfold compare_records.
  rewrite !decide_False by (intros H; by apply H).
  apply omap_all_None. intros i _. by rewrite elements_equal_refl.
Qed.

Lemma compare_sections_refl (a_arch b_arch : string) (section : nat)
    (sect : list Result.t) :
  compare_sections a_arch b_arch section sect sect = [].
Proof.
  unfold compare_sections.
  rewrite decide_False by (intros H; by apply H).
  induction sect as [|r sect IH]; [done|].
  simpl. by rewrite compare_records_refl, IH.
Qed.

(** C3.  A set compared with a copy holding the same sections, with the
    same records, types, lengths, bytes and policies, succeeds and adds
    nothing to the sink, whatever the bytes of the records are. *)
Theorem test_equal_identical_copy (a : TestResultsSet) (a_arch : string)
    (b : TestResultsSet) (b_arch : string) (err : list diagnostic) :
  get_results b = get_results a →
  test_equal a a_arch b b_arch err = (true, err)
  ∧ reported a a_arch b b_arch = [].
Proof.
  unfold get_results. intros Hcopy.
  assert (Hnone :
    concat (imap (λ sec '(sa, sb), compare_sections a_arch b_arch sec sa sb)
                 (zip (results_ a) (results_ a))) = []).
  { apply concat_imap_nil. intros sec [sa sb] Hin.
    rewrite zip_diag in Hin.
    apply list_elem_of_fmap in Hin as (sect & [= -> ->] & Hsect).
    apply compare_sections_refl. }
  unfold reported, test_equal. rewrite Hcopy.
  rewrite !decide_False by (intros H; by apply H).
  rewrite Hnone, app_nil_r. done.
Qed.

(** The set whose one [float] element is a NaN, against itself. *)
Lemma test_equal_identical_copy_witness :
  get_results sample_nan_set = get_results sample_nan_set
  ∧ test_equal sample_nan_set "sse2" sample_nan_set "avx" [] = (true, []).
Proof.
  split; [reflexivity|].
  exact (proj1 (test_equal_identical_copy
                  sample_nan_set "sse2" sample_nan_set "avx" [] eq_refl)).
Defined.


(** A comparator that accepts every element against itself, as the
    comparison of a set with its identical copy requires, does not obey
    "equal if and only if both NaN-free and within the tolerance",
    whatever the tolerance. *)
Lemma reflexive_rule_is_not_nan_free_iff (cmp : Z → Z → bool) (tol : Z) :
  (∀ x, cmp x x = true) →
  ¬ (∀ a b, cmp a b = true ↔
            fp_is_nan binary32 a = false ∧ fp_is_nan binary32 b = false
            ∧ ulp_distance binary32 a b <= tol).
Proof.
  intros Hrefl Hiff.
  destruct (proj1 (Hiff (le_decode nan_bytes) (le_decode nan_bytes))
              (Hrefl _)) as [Hnan _].
  vm_compute in Hnan. discriminate.
Qed.

(** A comparator whose verdict on one pair of values changes with the zero
    flag does not obey any rule that does not mention the flag. *)
Lemma flag_sensitive_rule_is_not_flagless (cmp : bool → Z → Z → bool)
    (rule : Z → Z → Prop) (a b : Z) :
  cmp true a b = true → cmp false a b = false →
  ¬ (∀ zero_eq x y, cmp zero_eq x y = true ↔ rule x y).
Proof.
  intros Hwith Hwithout Hiff.
  apply (Hiff true) in Hwith. apply (Hiff false) in Hwith. congruence.
Qed.





(** ** The line of representable values *)

(** A pattern of the width of its format is its sign bit and its
    magnitude. *)
Lemma fp_sign_magnitude (f : fp_format) (x : Z) :
  0 <= exp_bits f → 0 <= frac_bits f → 0 <= x < 2 ^ fp_width f →
  x = Z.b2z (fp_sign f x) * 2 ^ (fp_width f - 1) + fp_magnitude f x
  ∧ 0 <= fp_magnitude f x < 2 ^ (fp_width f - 1).
Proof.
  intros He Hm Hx. unfold fp_sign, fp_magnitude.
  set (n := fp_width f - 1).
  assert (Hn : 0 <= n) by (unfold n, fp_width; lia).
  assert (Hpow : 0 < 2 ^ n) by (apply Z.pow_pos_nonneg; lia).
  replace (fp_width f) with (n + 1) in Hx by (unfold n; lia).
  rewrite Z.pow_add_r, Z.pow_1_r in Hx by lia.
  rewrite Z.land_ones by done. rewrite Z.testbit_spec' by done.
  assert (Hq : 0 <= x / 2 ^ n < 2).
  { split; [apply Z.div_pos; lia|apply Z.div_lt_upper_bound; lia]. }
  rewrite (Z.mod_small (x / 2 ^ n)) by done.
  split; [|apply Z.mod_pos_bound; lia].
  rewrite (Z.div_mod x (2 ^ n)) at 1 by lia. lia.
Qed.

(** Two values at the same position are the same pattern or the two
    zeros. *)
Lemma fp_rank_inj (f : fp_format) (x y : Z) :
  0 <= exp_bits f → 0 <= frac_bits f →
  0 <= x < 2 ^ fp_width f → 0 <= y < 2 ^ fp_width f →
  fp_rank f x = fp_rank f y →
  x = y ∨ (fp_is_zero f x = true ∧ fp_is_zero f y = true).
Proof.
  intros He Hm Hx Hy.
  destruct (fp_sign_magnitude f x He Hm Hx) as [Ex Bx].
  destruct (fp_sign_magnitude f y He Hm Hy) as [Ey By].
  unfold fp_rank, fp_is_zero. intros Hr. rewrite !Z.eqb_eq.
  destruct (fp_sign f x), (fp_sign f y); simpl in Ex, Ey; lia.
Qed.

(** A tolerance of 0 asks for the same bit pattern, the two zeros apart,
    which the zero flag decides. *)
Lemma ulp_distance_zero_iff (f : fp_format) (x y : Z) :
  0 <= exp_bits f → 0 <= frac_bits f →
  0 <= x < 2 ^ fp_width f → 0 <= y < 2 ^ fp_width f →
  ulp_distance f x y = 0
  ↔ x = y ∨ (fp_is_zero f x = true ∧ fp_is_zero f y = true).
Proof.
  intros He Hm Hx Hy. split.
  - unfold ulp_distance. intros H0. apply (fp_rank_inj f); try done. lia.
  - intros [->|[Zx Zy]]; [apply ulp_distance_diag|].
    unfold ulp_distance, fp_rank, fp_is_zero in *.
    apply Z.eqb_eq in Zx, Zy. rewrite Zx, Zy.
    by destruct (fp_sign f x), (fp_sign f y).
Qed.

Lemma ulp_distance_sym (f : fp_format) (x y : Z) :
  ulp_distance f x y = ulp_distance f y x.
Proof. unfold ulp_distance. lia. Qed.

(** ** The comparator on the scenarios of the specification *)

(** [1, 2, 3, 4] under tolerance 0 against [1, 2, 3, 4 + 2 ULP] under
    tolerance 2: within the looser tolerance. *)
Example scenario_within_tolerance :
  test_equal (float_set 0 [f32_1; f32_2; f32_3; f32_4]) "sse2"
             (float_set 2 [f32_1; f32_2; f32_3; f32_4_up2]) "avx" []
  = (true, []).
Proof. reflexivity. Qed.

(** One ULP more and element 3 is reported. *)
Example scenario_one_ulp_beyond :
  test_equal (float_set 0 [f32_1; f32_2; f32_3; f32_4]) "sse2"
             (float_set 2 [f32_1; f32_2; f32_3; f32_4_up3]) "avx" []
  = (false,
     [ElementMismatch "sse2" "avx" "test.cc" 10 0 1 3 f32_4 f32_4_up3]).
Proof. reflexivity. Qed.

(** 4.0 against 5.0: one report, at index 3, with the two values. *)
Example scenario_four_against_five :
  test_equal (float_set 0 [f32_1; f32_2; f32_3; f32_4]) "sse2"
             (float_set 2 [f32_1; f32_2; f32_3; f32_5]) "avx" []
  = (false, [ElementMismatch "sse2" "avx" "test.cc" 10 0 1 3 f32_4 f32_5]).
Proof. reflexivity. Qed.

(** Without [fp_zero_eq] on either side, +0.0 and -0.0 are a mismatch under
    an exact tolerance. *)
Example signed_zeros_differ_without_flag :
  elements_equal (Result.ctor TYPE_FLOAT32 1 4 "test.cc" 10 1 0 false)
                 minus_zero_record 0 = false.
Proof. reflexivity. Qed.

(** Nor does a tolerance make them equal: one ULP allowed on both sides. *)
Example signed_zeros_differ_under_tolerance :
  elements_equal (Result.ctor TYPE_FLOAT32 1 4 "test.cc" 10 1 1 false)
                 (Result.with_data
                    (Result.ctor TYPE_FLOAT32 1 4 "test.cc" 10 1 1 false)
                    [Byte.x00; Byte.x00; Byte.x00; Byte.x80]) 0 = false.
Proof. reflexivity. Qed.

(** With the flag on one side they are equal. *)
Example signed_zeros_equal_with_flag :
  elements_equal plus_zero_record minus_zero_record 0 = true.
Proof. reflexivity. Qed.

(** * Further properties of the header *)

(** ** [SeqTestSuite] *)

Lemma uint_uint_add (a b : Z) : uint (uint a + b) = uint (a + b).
Proof.
  unfold uint. apply Zplus_mod_idemp_l.
Qed.

Lemma add_results_counts (s : SeqTestSuite) (verdicts : list bool) :
  num_success (add_results s verdicts)
    = (if decide (successes verdicts = 0%nat) then num_success s
       else uint (num_success s + Z.of_nat (successes verdicts)))
  ∧ num_failure (add_results s verdicts)
    = (if decide (failures verdicts = 0%nat) then num_failure s
       else uint (num_failure s + Z.of_nat (failures verdicts))).
Proof.
  unfold add_results, successes, failures, num_success, num_failure.
  revert s. induction verdicts as [|b verdicts IH]; intros s; [done|].
  simpl. destruct (IH (add_result s b)) as [IHs IHf]. rewrite IHs, IHf.
  clear IH IHs IHf. destruct b; simpl.
  - split; [|done]. case_decide as H0.
    + rewrite H0. reflexivity.
    + unfold uinc. rewrite uint_uint_add. f_equal. lia.
  - split; [done|]. case_decide as H0.
    + rewrite H0. reflexivity.
    + unfold uinc. rewrite uint_uint_add. f_equal. lia.
Qed.

(** X1.  On a new suite, after any run of [add_result] calls, the two
    counters are the numbers of successes and of failures of the run, each
    modulo [2^32]. *)
Theorem suite_counts_the_run (verdicts : list bool) :
  num_success (add_results SeqTestSuite_ctor verdicts)
    = uint (Z.of_nat (successes verdicts))
  ∧ num_failure (add_results SeqTestSuite_ctor verdicts)
    = uint (Z.of_nat (failures verdicts)).
Proof.
  destruct (add_results_counts SeqTestSuite_ctor verdicts) as [Hs Hf].
  rewrite Hs, Hf. clear Hs Hf. simpl.
  split; case_decide as H0; by rewrite ?H0.
Qed.

(** X2.  [success()] of a new suite after a run is true exactly when the
    number of failures of the run is a multiple of [2^32]: the failure
    counter is an [unsigned] that wraps. *)
Theorem suite_success_iff_failures_wrap (verdicts : list bool) :
  success (add_results SeqTestSuite_ctor verdicts) = true
  ↔ Z.of_nat (failures verdicts) mod UINT_MOD = 0.
Proof.
  destruct (add_results_counts SeqTestSuite_ctor verdicts) as [_ Hf].
  unfold success. unfold num_failure in Hf. rewrite Hf. clear Hf. simpl.
  rewrite Z.eqb_eq. case_decide as H0; [|done].
  rewrite H0. done.
Qed.

(** X3.  For a run of fewer than [2^32] verdicts on a new suite,
    [success()] is true exactly when every verdict of the run was a
    success. *)
Theorem suite_success_iff_all_succeeded (verdicts : list bool) :
  Z.of_nat (length verdicts) < UINT_MOD →
  success (add_results SeqTestSuite_ctor verdicts) = true
  ↔ Forall (λ b, b = true) verdicts.
Proof.
  intros Hlen.
  destruct (add_results_counts SeqTestSuite_ctor verdicts) as [_ Hf].
  unfold success. unfold num_failure in Hf. rewrite Hf. clear Hf. simpl.
  assert (Hle : (failures verdicts <= length verdicts)%nat)
    by apply length_filter.
  assert (Hzero : failures verdicts = 0%nat ↔ Forall (λ b, b = true) verdicts).
  { unfold failures. rewrite length_zero_iff_nil.
    induction verdicts as [|b verdicts IH]; [by split|].
    simpl in Hlen, Hle. destruct b.
    - rewrite filter_cons_False by done. rewrite Forall_cons.
      rewrite IH; [tauto|lia|apply length_filter].
    - rewrite filter_cons_True by done. rewrite Forall_cons.
      split; [done|]. by intros [? _]. }
  rewrite <- Hzero. case_decide as H0; [done|].
  rewrite Z.eqb_eq. unfold uint. rewrite Z.mod_small by lia. lia.
Qed.

(** Three verdicts, one of them a failure. *)
Lemma suite_success_iff_all_succeeded_witness :
  Z.of_nat (length [true; false; true]) < UINT_MOD
  ∧ (success (add_results SeqTestSuite_ctor [true; false; true]) = true
     ↔ Forall (λ b, b = true) [true; false; true]).
Proof.
  assert (H : Z.of_nat (length [true; false; true]) < UINT_MOD) by reflexivity.
  split; [exact H|].
  exact (suite_success_iff_all_succeeded [true; false; true] H).
Defined.

Lemma add_result_comm (s : SeqTestSuite) (a b : bool) :
  add_result (add_result s a) b = add_result (add_result s b) a.
Proof. by destruct a, b. Qed.

(** X4.  The tally does not depend on the order of the verdicts: two runs
    that are permutations of one another leave any suite in the same
    state. *)
Theorem suite_order_independent (s : SeqTestSuite) (run run' : list bool) :
  run ≡ₚ run' → add_results s run = add_results s run'.
Proof.
  unfold add_results. intros Hperm. revert s.
  induction Hperm as [|b l l' _ IH|a b l|l1 l2 l3 _ IH1 _ IH2]; intros s.
  - done.
  - simpl. apply IH.
  - simpl. by rewrite add_result_comm.
  - by rewrite IH1.
Qed.

(** The same verdicts in two orders. *)
Lemma suite_order_independent_witness :
  [true; false; true] ≡ₚ [false; true; true]
  ∧ add_results SeqTestSuite_ctor [true; false; true]
    = add_results SeqTestSuite_ctor [false; true; true].
Proof.
  assert (H : [true; false; true] ≡ₚ [false; true; true]) by apply perm_swap.
  split; [exact H|].
  exact (suite_order_independent SeqTestSuite_ctor _ _ H).
Defined.

(** X5.  Successes never repair a failure: a run of successes leaves the
    failure counter, and with it [success()], as they were. *)
Theorem suite_successes_keep_verdict (s : SeqTestSuite) (run : list bool) :
  Forall (λ b, b = true) run →
  num_failure (add_results s run) = num_failure s
  ∧ success (add_results s run) = success s.
Proof.
  unfold add_results, success, num_failure. intros Hall. revert s.
  induction Hall as [|b run -> _ IH]; intros s; [done|].
  cbn [foldl]. destruct (IH (add_result s true)) as [IHf _].
  rewrite IHf. done.
Qed.

(** A failure followed by two successes. *)
Lemma suite_successes_keep_verdict_witness :
  Forall (λ b, b = true) [true; true]
  ∧ success (add_results (add_result SeqTestSuite_ctor false) [true; true])
    = false.
Proof.
  assert (H : Forall (λ b, b = true) [true; true])
    by (repeat constructor).
  split; [exact H|].
  exact (proj2 (suite_successes_keep_verdict
                  (add_result SeqTestSuite_ctor false) [true; true] H)).
Defined.

(** ** Copies into one buffer *)

Lemma memcpy_defined dst off src n :
  (off + n <= length dst)%nat → (n <= length src)%nat →
  memcpy dst off src n
  = Some (take off dst ++ take n src ++ drop (off + n) dst).
Proof. intros Hd Hs. unfold memcpy. by rewrite decide_True. Qed.

Lemma memcpy_Some_inv dst off src n d :
  memcpy dst off src n = Some d →
  (off + n <= length dst)%nat ∧ (n <= length src)%nat.
Proof. unfold memcpy. by case_decide. Qed.

Lemma memcpy_None_inv dst off src n :
  memcpy dst off src n = None →
  ¬ ((off + n <= length dst)%nat ∧ (n <= length src)%nat).
Proof. unfold memcpy. by case_decide. Qed.

(** A second copy over the same range hides the first. *)
Lemma memcpy_overwrite dst off a b n d1 :
  memcpy dst off a n = Some d1 →
  memcpy d1 off b n = memcpy dst off b n.
Proof.
  intros H1. pose proof (memcpy_length _ _ _ _ _ H1) as Hlen.
  destruct (memcpy_Some_inv _ _ _ _ _ H1) as [Hd _].
  destruct (memcpy d1 off b n) as [d2|] eqn:H2,
           (memcpy dst off b n) as [d2'|] eqn:H2'.
  - f_equal. apply list_eq. intros i.
    rewrite (memcpy_lookup _ _ _ _ _ i H2), (memcpy_lookup _ _ _ _ _ i H2').
    case_decide as Hin; [done|].
    rewrite (memcpy_lookup _ _ _ _ _ i H1). by rewrite decide_False.
  - apply memcpy_Some_inv in H2. apply memcpy_None_inv in H2'. lia.
  - apply memcpy_Some_inv in H2'. apply memcpy_None_inv in H2. lia.
  - done.
Qed.

(** Copies over disjoint ranges can be made in either order. *)
Lemma memcpy_commute dst off1 off2 a b n d1 d12 :
  (off1 + n <= off2 ∨ off2 + n <= off1)%nat →
  memcpy dst off1 a n = Some d1 → memcpy d1 off2 b n = Some d12 →
  ∃ d2, memcpy dst off2 b n = Some d2 ∧ memcpy d2 off1 a n = Some d12.
Proof.
  intros Hdisj H1 H12.
  pose proof (memcpy_length _ _ _ _ _ H1) as Hlen1.
  destruct (memcpy_Some_inv _ _ _ _ _ H1) as [Hd1 Ha].
  destruct (memcpy_Some_inv _ _ _ _ _ H12) as [Hd2 Hb].
  destruct (memcpy dst off2 b n) as [d2|] eqn:H2.
  2:{ apply memcpy_None_inv in H2. lia. }
  exists d2. split; [done|].
  pose proof (memcpy_length _ _ _ _ _ H2) as Hlen2.
  destruct (memcpy d2 off1 a n) as [d21|] eqn:H21.
  2:{ apply memcpy_None_inv in H21. lia. }
  f_equal. apply list_eq. intros i.
  rewrite (memcpy_lookup _ _ _ _ _ i H21), (memcpy_lookup _ _ _ _ _ i H12).
  rewrite (memcpy_lookup _ _ _ _ _ i H2), (memcpy_lookup _ _ _ _ _ i H1).
  repeat case_decide; try done; lia.
Qed.

(** Copying a range onto itself changes nothing. *)
Lemma memcpy_self dst off n :
  (off + n <= length dst)%nat →
  memcpy dst off (take n (drop off dst)) n = Some dst.
Proof.
  intros Hd.
  destruct (memcpy dst off (take n (drop off dst)) n) as [d|] eqn:H.
  2:{ apply memcpy_None_inv in H. rewrite length_take, length_drop in H. lia. }
  f_equal. apply list_eq. intros i. rewrite (memcpy_lookup _ _ _ _ _ i H).
  case_decide as Hin; [|done].
  rewrite lookup_take_lt, lookup_drop by lia. f_equal. lia.
Qed.

(** ** More on [Result]: layout of the buffer and sequences of [set] *)

Lemma with_data_id (r : Result.t) : Result.with_data r (Result.data r) = r.
Proof. by destruct r. Qed.

Lemma with_data_twice (r : Result.t) (d1 d2 : list byte) :
  Result.with_data (Result.with_data r d1) d2 = Result.with_data r d2.
Proof. reflexivity. Qed.

(** The record an in-range [set] returns, with its bytes written out. *)
Lemma set_in_range_data (r : Result.t) (id : Z) (adata : list byte) :
  Result.sized r → 0 <= id < Result.length r →
  (Z.to_nat (Result.el_size r) <= length adata)%nat →
  Result.set r id adata
  = Returns
      (Result.with_data r
         (take (Z.to_nat id * Z.to_nat (Result.el_size r)) (Result.data r)
          ++ take (Z.to_nat (Result.el_size r)) adata
          ++ drop (Z.to_nat id * Z.to_nat (Result.el_size r)
                   + Z.to_nat (Result.el_size r)) (Result.data r))).
Proof.
  intros Hs Hid Hsrc. destruct (in_range_offsets r id Hs Hid) as [Hoff Hfit].
  unfold Result.set. rewrite Hoff. by rewrite memcpy_defined.
Qed.

Lemma set_keeps_sized (r r' : Result.t) (id : Z) (adata : list byte) :
  Result.sized r → Result.set r id adata = Returns r' → Result.sized r'.
Proof.
  intros Hs Hset. unfold Result.sized in *.
  apply set_frame in Hset as (_ & Hl & He & _ & _ & _ & _ & _ & Hd).
  by rewrite Hl, He, Hd.
Qed.

(** X6.  The constructor multiplies [el_size] and [length] as [unsigned]:
    the buffer has [(el_size * length) mod 2^32] bytes, and when the product
    does not fit 32 bits the buffer is shorter than [length] elements. *)
Theorem ctor_buffer_wraps (atype : VectorType) (alength ael_size : Z)
    (afile : string) (aline aseq aprec_ulp : Z) (afp_zero_eq : bool) :
  is_uint alength → is_uint ael_size → UINT_MOD <= ael_size * alength →
  Z.of_nat (length (Result.data (Result.ctor atype alength ael_size afile
                                   aline aseq aprec_ulp afp_zero_eq)))
  = (ael_size * alength) mod UINT_MOD
  ∧ Z.of_nat (length (Result.data (Result.ctor atype alength ael_size afile
                                     aline aseq aprec_ulp afp_zero_eq)))
    < ael_size * alength.
Proof.
  intros Hl He Hbig. rewrite ctor_data_length. unfold umul, uint.
  split; [done|].
  pose proof (Z.mod_pos_bound (ael_size * alength) UINT_MOD) as Hb.
  rewrite UINT_MOD_eq in *. lia.
Qed.

(** [2^29] elements of 8 bytes: no buffer at all. *)
Lemma ctor_buffer_wraps_witness :
  is_uint (2 ^ 29) ∧ is_uint 8 ∧ UINT_MOD <= 8 * 2 ^ 29
  ∧ Result.data (Result.ctor TYPE_INT64 (2 ^ 29) 8 "test.cc" 10 1 0 false) = [].
Proof.
  assert (Hl : is_uint (2 ^ 29)) by (vm_compute; split; [discriminate|reflexivity]).
  assert (He : is_uint 8) by (vm_compute; split; [discriminate|reflexivity]).
  assert (Hbig : UINT_MOD <= 8 * 2 ^ 29) by (vm_compute; discriminate).
  split; [exact Hl|]. split; [exact He|]. split; [exact Hbig|].
  destruct (ctor_buffer_wraps TYPE_INT64 (2 ^ 29) 8 "test.cc" 10 1 0 false
              Hl He Hbig) as [Hsz _].
  apply length_zero_iff_nil. apply Nat2Z.inj. rewrite Hsz. reflexivity.
Defined.

(** X7.  In a record the constructor has just built, with a buffer size
    that fits 32 bits, every element slot below [length] holds [el_size]
    zero bytes. *)
Theorem ctor_slots_are_zero (atype : VectorType) (alength ael_size : Z)
    (afile : string) (aline aseq aprec_ulp : Z) (afp_zero_eq : bool)
    (i : nat) :
  0 <= ael_size → 0 <= alength → ael_size * alength < UINT_MOD →
  (i < Z.to_nat alength)%nat →
  Result.slot (Result.ctor atype alength ael_size afile aline aseq aprec_ulp
                 afp_zero_eq) i
  = replicate (Z.to_nat ael_size) zero_byte.
Proof.
  intros He Hl Hfit Hi. unfold Result.slot. rewrite ctor_data. simpl.
  assert (Hsz : umul ael_size alength = ael_size * alength).
  { unfold umul. apply uint_small. unfold is_uint. nia. }
  rewrite Hsz, Z2Nat.inj_mul by lia.
  rewrite drop_replicate, take_replicate. f_equal. nia.
Qed.

(** Slot 1 of the sample record. *)
Lemma ctor_slots_are_zero_witness :
  Result.slot sample_record 1 = replicate 4 zero_byte.
Proof.
  apply (ctor_slots_are_zero TYPE_FLOAT32 2 4 "test.cc" 10 1 0 false 1);
    [lia|lia|reflexivity|simpl; lia].
Defined.

Lemma concat_chunks (e n : nat) (l : list byte) :
  length l = (n * e)%nat →
  concat ((λ i, take e (drop (i * e) l)) <$> seq 0 n) = l.
Proof.
  revert l. induction n as [|n IH]; intros l Hlen.
  - simpl in *. symmetry. by apply length_zero_iff_nil.
  - change (seq 0 (S n)) with (0%nat :: seq 1 n).
    rewrite fmap_cons, <- fmap_S_seq, <- list_fmap_compose.
    rewrite (list_fmap_ext _ (λ i, take e (drop (i * e) (drop e l)))).
    2:{ intros _ i _. simpl. rewrite drop_drop. done. }
    simpl. rewrite IH by (rewrite length_drop; lia).
    apply take_drop.
Qed.

(** X8.  The element slots tile the buffer: for a record whose buffer has
    [length * el_size] bytes, the bytes [d()] exposes are slot 0, slot 1,
    up to slot [length - 1], one after the other. *)
Theorem slots_tile_the_buffer (r : Result.t) :
  Result.sized r →
  Result.d r
  = concat (Result.slot r <$> seq 0 (Z.to_nat (Result.length r))).
Proof.
  intros (He & Hl & Hfit & Hsz). unfold Result.d, Result.slot.
  symmetry. apply concat_chunks.
  apply Nat2Z.inj. rewrite Hsz, Nat2Z.inj_mul, !Z2Nat.id by lia. lia.
Qed.

(** The two slots of the sample record. *)
Lemma slots_tile_the_buffer_witness :
  Result.sized sample_record
  ∧ Result.d sample_record
    = Result.slot sample_record 0 ++ Result.slot sample_record 1.
Proof.
  assert (Hs : Result.sized sample_record)
    by (apply ctor_sized; [lia|lia|reflexivity]).
  split; [exact Hs|].
  rewrite (slots_tile_the_buffer sample_record Hs). reflexivity.
Defined.

(** X9.  The last write wins: after a returning [set(id, a)], a
    [set(id, b)] ends as it would have on the record before the first
    write, so the first write leaves no trace. *)
Theorem set_last_write_wins (r r1 : Result.t) (id : Z) (a b : list byte) :
  Result.set r id a = Returns r1 →
  Result.set r1 id b = Result.set r id b.
Proof.
  intros (d1 & Hcpy & ->)%set_Returns_inv.
  unfold Result.set. simpl.
  rewrite (memcpy_overwrite _ _ a b _ d1 Hcpy).
  by destruct (memcpy _ _ b _).
Qed.

(** Two writes of slot 1 of the sample record. *)
Lemma set_last_write_wins_witness :
  Result.set sample_record 1 nan_bytes
  = Returns (Result.with_data sample_record
               (replicate 4 zero_byte ++ nan_bytes))
  ∧ Result.set (Result.with_data sample_record
                  (replicate 4 zero_byte ++ nan_bytes)) 1 sample_bytes
    = Result.set sample_record 1 sample_bytes.
Proof.
  assert (H : Result.set sample_record 1 nan_bytes
              = Returns (Result.with_data sample_record
                           (replicate 4 zero_byte ++ nan_bytes)))
    by reflexivity.
  split; [exact H|].
  exact (set_last_write_wins sample_record _ 1 nan_bytes sample_bytes H).
Defined.

(** X10.  Writes of two different in-range elements commute: both orders
    return, and they return the same record. *)
Theorem set_distinct_indices_commute (r : Result.t) (i j : Z)
    (a b : list byte) :
  Result.sized r →
  0 <= i < Result.length r → 0 <= j < Result.length r → i ≠ j →
  (Z.to_nat (Result.el_size r) <= length a)%nat →
  (Z.to_nat (Result.el_size r) <= length b)%nat →
  ∃ r1 r2 r',
    Result.set r i a = Returns r1 ∧ Result.set r1 j b = Returns r'
    ∧ Result.set r j b = Returns r2 ∧ Result.set r2 i a = Returns r'.
Proof.
  intros Hs Hi Hj Hne Ha Hb.
  destruct (in_range_offsets r i Hs Hi) as [Hoffi Hfiti].
  destruct (in_range_offsets r j Hs Hj) as [Hoffj Hfitj].
  set (e := Z.to_nat (Result.el_size r)) in *.
  assert (Hdisj : (Z.to_nat i * e + e <= Z.to_nat j * e
                   ∨ Z.to_nat j * e + e <= Z.to_nat i * e)%nat).
  { destruct (decide (i < j)); [left|right]; nia. }
  destruct (memcpy (Result.data r) (Z.to_nat i * e) a e) as [d1|] eqn:H1.
  2:{ apply memcpy_None_inv in H1. lia. }
  pose proof (memcpy_length _ _ _ _ _ H1) as Hlen1.
  destruct (memcpy d1 (Z.to_nat j * e) b e) as [d12|] eqn:H12.
  2:{ apply memcpy_None_inv in H12. lia. }
  destruct (memcpy_commute _ _ _ _ _ _ _ _ Hdisj H1 H12) as (d2 & H2 & H21).
  exists (Result.with_data r d1), (Result.with_data r d2),
         (Result.with_data r d12).
  unfold Result.set. simpl. fold e.
  rewrite Hoffi, Hoffj, H1, H12, H2, H21. done.
Qed.

(** Slots 0 and 1 of the sample record, in both orders. *)
Lemma set_distinct_indices_commute_witness :
  ∃ r1 r2 r',
    Result.set sample_record 0 nan_bytes = Returns r1
    ∧ Result.set r1 1 sample_bytes = Returns r'
    ∧ Result.set sample_record 1 sample_bytes = Returns r2
    ∧ Result.set r2 0 nan_bytes = Returns r'.
Proof.
  apply (set_distinct_indices_commute sample_record 0 1 nan_bytes sample_bytes).
  - apply ctor_sized; [lia|lia|reflexivity].
  - simpl. lia.
  - simpl. lia.
  - discriminate.
  - simpl. lia.
  - simpl. lia.
Defined.

(** X11.  Writing back what a slot holds is the identity: for an in-range
    index, [set] with the bytes of that slot returns the record itself. *)
Theorem set_own_slot_is_identity (r : Result.t) (id : Z) :
  Result.sized r → 0 <= id < Result.length r →
  Result.set r id (Result.slot r (Z.to_nat id)) = Returns r.
Proof.
  intros Hs Hid. destruct (in_range_offsets r id Hs Hid) as [Hoff Hfit].
  unfold Result.set, Result.slot. rewrite Hoff.
  rewrite memcpy_self by done. by rewrite with_data_id.
Qed.

(** Slot 1 of the sample record. *)
Lemma set_own_slot_is_identity_witness :
  Result.sized sample_record ∧ 0 <= 1 < Result.length sample_record
  ∧ Result.set sample_record 1 (Result.slot sample_record 1)
    = Returns sample_record.
Proof.
  assert (Hs : Result.sized sample_record)
    by (apply ctor_sized; [lia|lia|reflexivity]).
  assert (Hid : 0 <= 1 < Result.length sample_record) by (simpl; lia).
  split; [exact Hs|]. split; [exact Hid|].
  exact (set_own_slot_is_identity sample_record 1 Hs Hid).
Defined.

(** X12.  The byte offset [id*el_size] is an [unsigned] product, so an
    index and the index [k] further on address the same bytes whenever
    [el_size * k = 2^32]: the two calls of [set] end alike. *)
Theorem set_index_wraps (r : Result.t) (id k : Z) (adata : list byte) :
  Result.el_size r * k = UINT_MOD →
  Result.set r (id + k) adata = Result.set r id adata.
Proof.
  intros Hk. unfold Result.set.
  assert (Hoff : umul (id + k) (Result.el_size r) = umul id (Result.el_size r)).
  { unfold umul, uint.
    replace ((id + k) * Result.el_size r)
      with (id * Result.el_size r + 1 * UINT_MOD) by lia.
    apply Z_mod_plus_full. }
  by rewrite Hoff.
Qed.

(** With 4-byte elements, index [1 + 2^30] is index 1. *)
Lemma set_index_wraps_witness :
  Result.el_size sample_record * 2 ^ 30 = UINT_MOD
  ∧ Result.set sample_record (1 + 2 ^ 30) sample_bytes
    = Result.set sample_record 1 sample_bytes.
Proof.
  assert (Hk : Result.el_size sample_record * 2 ^ 30 = UINT_MOD) by reflexivity.
  split; [exact Hk|].
  exact (set_index_wraps sample_record 1 (2 ^ 30) sample_bytes Hk).
Defined.

(** The loop over a run of elements, from index [id], with the buffer it
    leaves written out. *)
Lemma set_all_data (elems : list (list byte)) (r : Result.t) (id : Z) :
  Result.sized r → 0 <= id →
  id + Z.of_nat (length elems) <= Result.length r →
  Forall (λ e, length e = Z.to_nat (Result.el_size r)) elems →
  set_all r id elems
  = Returns
      (Result.with_data r
         (take (Z.to_nat id * Z.to_nat (Result.el_size r)) (Result.data r)
          ++ concat elems
          ++ drop (Z.to_nat id * Z.to_nat (Result.el_size r)
                   + length elems * Z.to_nat (Result.el_size r))
                  (Result.data r))).
Proof.
  revert r id. induction elems as [|e0 elems IH]; intros r id Hs Hid Hend Hall.
  - simpl. rewrite Nat.add_0_r, take_drop. by rewrite with_data_id.
  - apply Forall_cons in Hall as [He0 Hall]. simpl in Hend.
    cbn [set_all]. rewrite set_in_range_data by (done || lia).
    set (e := Z.to_nat (Result.el_size r)) in *.
    set (k := Z.to_nat id) in *.
    rewrite (take_ge e0) by lia.
    set (r1 := Result.with_data r _).
    assert (Hs1 : Result.sized r1).
    { eapply (set_keeps_sized r r1 id e0); [done|].
      rewrite set_in_range_data by (done || lia). fold e k.
      by rewrite (take_ge e0) by lia. }
    destruct (in_range_offsets r id Hs) as [_ Hfit]; [lia|]. fold e k in Hfit.
    rewrite IH; [|done|lia|subst r1; simpl; lia|exact Hall].
    subst r1. simpl. fold e. rewrite with_data_twice. do 2 f_equal.
    replace (Z.to_nat (id + 1)) with (S k) by lia.
    assert (Hpre : length (take (k * e) (Result.data r) ++ e0) = (S k * e)%nat).
    { rewrite length_app, length_take. lia. }
    rewrite (app_assoc _ e0), <- Hpre.
    rewrite take_app_length, <- !app_assoc. do 3 f_equal.
    rewrite (app_assoc _ e0), drop_app_add, drop_drop. f_equal. lia.
Qed.

(** X13.  Writing every element in turn fills the buffer with the elements
    in order: on a record whose buffer has [length * el_size] bytes, the
    loop of [set(i, v_i)] over [length] elements of [el_size] bytes each
    returns, and [d()] is then their concatenation. *)
Theorem set_all_fills_the_buffer (r : Result.t) (elems : list (list byte)) :
  Result.sized r →
  Z.of_nat (length elems) = Result.length r →
  Forall (λ e, length e = Z.to_nat (Result.el_size r)) elems →
  ∃ r', set_all r 0 elems = Returns r'
      ∧ Result.d r' = concat elems
      ∧ r' = Result.with_data r (concat elems).
Proof.
  intros Hs Hlen Hall. exists (Result.with_data r (concat elems)).
  split; [|done].
  rewrite set_all_data by (done || lia). simpl. do 2 f_equal.
  rewrite drop_ge; [by rewrite app_nil_r|].
  destruct Hs as (He & Hl & Hfit & Hsz).
  apply Nat2Z.inj_le. rewrite Hsz, Nat2Z.inj_mul, Z2Nat.id by lia. nia.
Qed.

(** The two elements of the sample record. *)
Lemma set_all_fills_the_buffer_witness :
  ∃ r', set_all sample_record 0 [f32_1; f32_2] = Returns r'
      ∧ Result.d r' = f32_1 ++ f32_2.
Proof.
  destruct (set_all_fills_the_buffer sample_record [f32_1; f32_2])
    as (r' & Hrun & Hd & _).
  - apply ctor_sized; [lia|lia|reflexivity].
  - reflexivity.
  - repeat constructor.
  - exists r'. split; [exact Hrun|exact Hd].
Defined.

(** X14.  On a record with [el_size] 0, [set] copies no byte: whatever the
    index and the source, it returns the record unchanged. *)
Theorem set_with_no_element_size (r : Result.t) (id : Z) (adata : list byte) :
  Result.el_size r = 0 → Result.set r id adata = Returns r.
Proof.
  intros He. unfold Result.set, umul. rewrite He, Z.mul_0_r.
  change (Z.to_nat (uint 0)) with 0%nat. change (Z.to_nat 0) with 0%nat.
  rewrite memcpy_defined by (simpl; lia).
  rewrite !take_0, drop_0. simpl. by rewrite with_data_id.
Qed.

(** A record built with element size 0, written at index 7. *)
Lemma set_with_no_element_size_witness :
  Result.set (Result.ctor TYPE_INT8 3 0 "test.cc" 10 1 0 false) 7 sample_bytes
  = Returns (Result.ctor TYPE_INT8 3 0 "test.cc" 10 1 0 false).
Proof.
  apply (set_with_no_element_size
           (Result.ctor TYPE_INT8 3 0 "test.cc" 10 1 0 false) 7 sample_bytes).
  reflexivity.
Defined.

(** ** The cursor of a results set *)

(** X15.  [n] markers in a row advance the section cursor by [n] modulo
    [2^32], leave [get_results()] as it was and, when there is one at
    least, leave the sequence counter at 1. *)
Theorem sync_archs_iterated (s : TestResultsSet) (n : nat) :
  is_uint (curr_results_section_ s) →
  curr_results_section_ (Nat.iter n sync_archs s)
  = (curr_results_section_ s + Z.of_nat n) mod UINT_MOD
  ∧ get_results (Nat.iter n sync_archs s) = get_results s
  ∧ ((0 < n)%nat → seq_ (Nat.iter n sync_archs s) = 1).
Proof.
  intros Hsec. induction n as [|n (IHsec & IHres & _)].
  - simpl. rewrite Z.add_0_r. split; [|split; [done|lia]].
    symmetry. by apply Z.mod_small.
  - rewrite Nat.iter_succ. split; [|split; [|done]].
    + change (curr_results_section_ (sync_archs (Nat.iter n sync_archs s)))
        with (uinc (curr_results_section_ (Nat.iter n sync_archs s))).
      rewrite IHsec. unfold uinc, uint. rewrite Zplus_mod_idemp_l.
      f_equal. lia.
    + by rewrite sync_archs_results.
Qed.

(** Three markers on a new set. *)
Lemma sync_archs_iterated_witness :
  is_uint (curr_results_section_ sample_set)
  ∧ curr_results_section_ (Nat.iter 3 sync_archs sample_set) = 3.
Proof.
  assert (H : is_uint (curr_results_section_ sample_set))
    by (vm_compute; split; [discriminate|reflexivity]).
  split; [exact H|].
  exact (proj1 (sync_archs_iterated sample_set 3 H)).
Defined.

(** X16.  No sequence of the inline mutators of the header (policy calls,
    [reset_seq], [sync_archs]) renames the set or adds, removes or changes
    a record: [name()] and [get_results()] are as before. *)
Theorem header_calls_keep_name_and_results (s s' : TestResultsSet) :
  rtc header_step s s' →
  name s' = name s ∧ get_results s' = get_results s.
Proof.
  induction 1 as [s|s s1 s' Hstep _ [IHname IHres]]; [done|].
  rewrite IHname, IHres. by destruct Hstep.
Qed.

(** A tolerance, a marker and the zero rule on the set of one record. *)
Lemma header_calls_keep_name_and_results_witness :
  get_results (set_fp_zero_equal (sync_archs (set_precision sample_set_one 2)))
  = get_results sample_set_one.
Proof.
  refine (proj2 (header_calls_keep_name_and_results sample_set_one _ _)).
  eapply rtc_l; [apply (hstep_set_precision _ 2)|].
  eapply rtc_l; [apply hstep_sync_archs|].
  eapply rtc_l; [apply hstep_set_fp_zero_equal|].
  apply rtc_refl.
Defined.

(** ** Reading back what the loop has written *)

Lemma chunk_of_concat (e : nat) (elems : list (list byte)) (i : nat)
    (x : list byte) :
  Forall (λ el, length el = e) elems → elems !! i = Some x →
  take e (drop (i * e) (concat elems)) = x.
Proof.
  intros Hall. revert i. induction Hall as [|x0 elems Hx0 _ IH]; intros i Hi.
  - done.
  - destruct i as [|i]; simpl in *.
    + injection Hi as ->. by rewrite drop_0, take_app_length'.
    + rewrite (drop_app_add' x0 _ e) by done. by apply IH.
Qed.

(** X17.  After the loop of [set(i, v_i)] over all elements, slot [i] of the
    record holds [v_i], for every [i]: what was written is what is read. *)
Theorem set_all_then_read (r r' : Result.t) (elems : list (list byte))
    (i : nat) (x : list byte) :
  Result.sized r →
  Z.of_nat (length elems) = Result.length r →
  Forall (λ e, length e = Z.to_nat (Result.el_size r)) elems →
  set_all r 0 elems = Returns r' →
  elems !! i = Some x →
  Result.slot r' i = x.
Proof.
  intros Hs Hlen Hall Hrun Hi.
  rewrite set_all_data in Hrun by (done || lia).
  injection Hrun as <-. unfold Result.slot. simpl.
  rewrite (drop_ge (Result.data r)).
  - rewrite app_nil_r. by apply chunk_of_concat.
  - destruct Hs as (He & Hl & Hfit & Hsz).
    apply Nat2Z.inj_le. rewrite Hsz, Nat2Z.inj_mul, Z2Nat.id by lia. nia.
Qed.

(** The second of two elements written to the sample record. *)
Lemma set_all_then_read_witness :
  set_all sample_record 0 [f32_1; f32_2]
  = Returns (Result.with_data sample_record (f32_1 ++ f32_2))
  ∧ Result.slot (Result.with_data sample_record (f32_1 ++ f32_2)) 1 = f32_2.
Proof.
  assert (Hrun : set_all sample_record 0 [f32_1; f32_2]
                 = Returns (Result.with_data sample_record (f32_1 ++ f32_2)))
    by reflexivity.
  split; [exact Hrun|].
  apply (set_all_then_read sample_record _ [f32_1; f32_2] 1 f32_2).
  - apply ctor_sized; [lia|lia|reflexivity].
  - reflexivity.
  - repeat constructor.
  - exact Hrun.
  - reflexivity.
Defined.
